(** * MCA result processing: grades, SGPA, pass/fail and ranks

    A shallow embedding of [app.py], the result-processing script of the
    MCA 2025-2027 rank list.  The script loads one table of marks (a row per
    student, a column per subject), cleans the marks, maps each mark to a
    grade and a grade point, computes the credit-weighted SGPA of each row,
    decides PASS or FAIL, ranks the rows and builds the topper lists.

    Numbers.  A mark is a finite number read from the sheet: it is modelled
    as a rational in canonical form, [Qc] (every finite float is one, and
    the script only compares marks with integer thresholds).  The result of
    pandas' [to_numeric] is an [option Qc], [None] standing for NaN.  Grade
    points and credits are integers ([Z]).  The SGPA is the two-decimal
    rounding of a quotient n/24 with n an integer between 0 and 240: the
    script holds the double nearest to a decimal k/100, the one it prints,
    and the SGPA is modelled by that decimal, with Python's
    round-half-to-even on the exact tie (the ties n/24 = j/8 are exact in
    binary, so the float computation rounds them to even as well).  The
    doubles of two sums are equal or ordered as their decimals are; nothing
    below depends on the digits of a double beyond the second decimal, and
    nothing is said of the quotient of integers too large for a double. *)

From Stdlib Require Import ZArith QArith Qcanon Qround Qabs Lia Lqa.
From stdpp Require Import gmap strings list sorting.

Local Open Scope Z_scope.

(** ** Reference tables *)

Definition subject_cols : list Z :=
  [101; 103; 105; 107; 109; 161; 163; 165; 167; 169; 171].

Definition CREDITS : gmap Z Z :=
  list_to_map
    [(101, 4); (103, 3); (105, 3); (107, 3); (109, 3);
     (161, 1); (163, 1); (165, 1); (167, 1); (169, 3); (171, 1)].

(** ** The marks sheet *)

(** A cell of the sheet as [read_excel] delivers it. *)
Inductive cell :=
  | Num (q : Qc)        (* a number *)
  | Text (s : string)   (* text, such as the absence marker AB *)
  | Missing.            (* an empty cell *)

(** A row of the sheet.  The frame is rectangular: a row has a cell under
    every column, the subject columns being keyed by their integer code. *)
Record student := mk_student {
  raw_RollNo : Z;
  raw_Name : string;
  raw_marks : Z → cell
}.

(** ** Cleaning the marks *)

Section Cleaning.
(** How pandas reads a text as a number ("85" is 85, "AB" is nothing). *)
Variable parse_number : string → option Qc.

(** [pd.to_numeric(_, errors="coerce")]: what is no number becomes NaN. *)
Definition to_numeric (c : cell) : option Qc :=
  match c with
  | Num q => Some q
  | Text s => parse_number s
  | Missing => None
  end.

(** [.fillna(v)] *)
Definition fillna (v : Qc) (x : option Qc) : Qc :=
  match x with
  | Some q => q
  | None => v
  end.

Definition clean (c : cell) : Qc := fillna (Qc_of_Z 0) (to_numeric c).
End Cleaning.

(** ** Grade and grade point *)

(** Python's [x >= y] on numbers. *)
Definition ge (x y : Qc) : bool := bool_decide (y ≤ x)%Qc.

Definition grade_and_point (marks : Qc) : string * Z :=
  if ge marks (Qc_of_Z 90) then ("O"%string, 10)
  else if ge marks (Qc_of_Z 75) then ("A+"%string, 9)
  else if ge marks (Qc_of_Z 65) then ("A"%string, 8)
  else if ge marks (Qc_of_Z 55) then ("B+"%string, 7)
  else if ge marks (Qc_of_Z 50) then ("B"%string, 6)
  else if ge marks (Qc_of_Z 45) then ("C"%string, 5)
  else if ge marks (Qc_of_Z 40) then ("P"%string, 4)
  else ("F"%string, 0).

(** The loop that adds the columns [{col}_Grade] and [{col}_GP]: the two
    families of columns, keyed by subject code. *)
Definition apply_grades (marks : Z → Qc) : gmap Z string * gmap Z Z :=
  foldl (λ '(grades, gps) col,
           (<[col := (grade_and_point (marks col)).1]> grades,
            <[col := (grade_and_point (marks col)).2]> gps))
        (∅, ∅) subject_cols.

(** ** SGPA *)

(** Python's [a / b] on integers: a ZeroDivisionError is [None]. *)
Definition truediv (a b : Z) : option Qc :=
  if decide (b = 0) then None else Some (Q2Qc (inject_Z a / inject_Z b)).

(** Rounding to the nearest integer, an exact tie going to the even one. *)
Definition round_half_even (x : Q) : Z :=
  let f := Qfloor x in
  match (x - inject_Z f ?= 1 # 2)%Q with
  | Lt => f
  | Gt => f + 1
  | Eq => if Z.even f then f else f + 1
  end.

(** Python's [round(x, ndigits)]. *)
Definition round (x : Qc) (ndigits : Z) : Qc :=
  let scale := inject_Z (10 ^ ndigits) in
  Q2Qc (inject_Z (round_half_even (x * scale)) / scale).

(** One turn of the loop of [calculate_sgpa]; a missing key is a KeyError. *)
Definition sgpa_step (row_GP : gmap Z Z) (acc : option (Z * Z)) (sub : Z)
    : option (Z * Z) :=
  '(total_ci_gi, total_credits) ← acc;
  credit ← CREDITS !! sub;
  gp ← row_GP !! sub;
  Some (total_ci_gi + credit * gp, total_credits + credit).

Definition calculate_sgpa (row_GP : gmap Z Z) : option Qc :=
  '(total_ci_gi, total_credits) ← foldl (sgpa_step row_GP) (Some (0, 0)) subject_cols;
  q ← truediv total_ci_gi total_credits;
  Some (round q 2).

(** ** Pass or fail *)

(** [.min(axis=1)] over the selected columns of one row; no column, no
    minimum (NaN). *)
Definition row_min (xs : list Z) : option Z :=
  match xs with
  | [] => None
  | x :: xs' => Some (foldl Z.min x xs')
  end.

(** [lambda x: "PASS" if x >= 4 else "FAIL"]; NaN compares false. *)
Definition pass_or_fail (x : option Z) : string :=
  match x with
  | Some v => if bool_decide (4 ≤ v) then "PASS"%string else "FAIL"%string
  | None => "FAIL"%string
  end.

Definition result_of (row_GP : gmap Z Z) : option string :=
  gps ← mapM (λ s, row_GP !! s) subject_cols;
  Some (pass_or_fail (row_min gps)).

(** ** Stable sorting *)

(** [sort_by le] sorts by insertion; an element stays in front of the later
    elements it ties with, as in pandas' sort on several keys. *)
Fixpoint insert_by {A} (le : A → A → bool) (x : A) (l : list A) : list A :=
  match l with
  | [] => [x]
  | y :: l' => if le x y then x :: l else y :: insert_by le x l'
  end.

Definition sort_by {A} (le : A → A → bool) (l : list A) : list A :=
  foldr (insert_by le) [] l.

(** ** Dense ranks *)

(** [Series.rank(ascending=False, method="dense")]: the values are put in
    descending order and numbered along it, the number going up by one at
    each change of value; then every entry of the column takes the number
    of its value. *)
Definition desc (x y : Qc) : bool := bool_decide (y ≤ x)%Qc.

Fixpoint dense_walk (prev : Qc) (seen : Z) (l : list Qc) : list (Qc * Z) :=
  match l with
  | [] => []
  | x :: l' =>
      let seen' := if decide (x = prev) then seen else seen + 1 in
      (x, seen') :: dense_walk x seen' l'
  end.

Definition dense_numbering (sorted : list Qc) : list (Qc * Z) :=
  match sorted with
  | [] => []
  | x :: l' => (x, 1) :: dense_walk x 1 l'
  end.

Definition rank_dense (col : list Qc) : option (list Z) :=
  let table : gmap Qc Z := list_to_map (dense_numbering (sort_by desc col)) in
  mapM (λ x, table !! x) col.

(** ** The processed frame *)

(** The columns computed row by row. *)
Record scored := mk_scored {
  RollNo : Z;
  Name : string;
  marks : Z → Qc;
  Grade : gmap Z string;
  GP : gmap Z Z;
  SGPA : Qc;
  CGPA : Qc;
  Result : string
}.

(** A row of the final frame: the columns above and the rank. *)
Record row := mk_row {
  cols : scored;
  Rank : Z
}.

Section Pipeline.
Variable parse_number : string → option Qc.

(** The row-wise columns of one row of the sheet; a KeyError in
    [calculate_sgpa] or in the selection of the GP columns is [None]. *)
Definition score (s : student) : option scored :=
  let marks := λ col, clean parse_number (raw_marks s col) in
  let '(grades, gps) := apply_grades marks in
  sgpa ← calculate_sgpa gps;
  result ← result_of gps;
  Some {| RollNo := raw_RollNo s; Name := raw_Name s; marks := marks;
          Grade := grades; GP := gps;
          SGPA := sgpa; CGPA := sgpa; Result := result |}.

(** The frame after the script has added all its columns.  The columns
    SGPA, CGPA and Result are computed row by row, the Rank from the whole
    SGPA column.  Only the eleven subject columns of the sheet are read. *)
Definition process (df : list student) : option (list row) :=
  rows ← mapM score df;
  ranks ← rank_dense (SGPA <$> rows);
  Some (zip_with mk_row rows ranks).
End Pipeline.

(** ** The overall topper list *)

(** Order of [sort_values(by=["SGPA", "Name"], ascending=[False, True])]. *)
Definition topper_le (a b : row) : bool :=
  bool_decide (SGPA (cols b) < SGPA (cols a))%Qc
  || (bool_decide (SGPA (cols a) = SGPA (cols b))
      && String.leb (Name (cols a)) (Name (cols b))).

(** The sorted frame with its new column [Overall Rank] = index + 1. *)
Definition topper_df (df : list row) : list (Z * row) :=
  imap (λ i r, (Z.of_nat i + 1, r)) (sort_by topper_le df).

(** ** Notions used in the statements *)

Definition grade_of (m : Qc) : string := (grade_and_point m).1.
Definition point_of (m : Qc) : Z := (grade_and_point m).2.

(** The credit of a subject of the scheme. *)
Definition credit (sub : Z) : Z := default 0 (CREDITS !! sub).

Definition Zsum (l : list Z) : Z := foldr Z.add 0 l.

(** The sum of credit times grade point over the eleven subjects. *)
Definition weighted_points (marks : Z → Qc) : Z :=
  Zsum ((λ sub, credit sub * point_of (marks sub)) <$> subject_cols).

Definition total_credit_sum : Z := Zsum (credit <$> subject_cols).

(** The SGPA that goes with a sum [n] of credit times grade point. *)
Definition sgpa_of_points (n : Z) : Qc :=
  round (Q2Qc (inject_Z n / inject_Z 24)) 2.

(** The number of distinct values of a column that are strictly greater
    than [x]. *)
Definition distinct_greater (col : list Qc) (x : Qc) : nat :=
  size (filter (λ y, (x < y)%Qc) (list_to_set col : gset Qc)).

(** The cleaned marks of a row of the sheet. *)
Definition cleaned (parse_number : string → option Qc) (s : student) : Z → Qc :=
  λ col, clean parse_number (raw_marks s col).

(** The row-wise columns of a row of the sheet, in closed form. *)
Definition columns_of (parse_number : string → option Qc) (s : student) : scored :=
  let m := cleaned parse_number s in
  {| RollNo := raw_RollNo s; Name := raw_Name s; marks := m;
     Grade := (apply_grades m).1; GP := (apply_grades m).2;
     SGPA := sgpa_of_points (weighted_points m);
     CGPA := sgpa_of_points (weighted_points m);
     Result := pass_or_fail (row_min ((λ sub, point_of (m sub)) <$> subject_cols)) |}.

(** The eight pairs of the table. *)
Definition grade_table : list (string * Z) :=
  [("O", 10); ("A+", 9); ("A", 8); ("B+", 7); ("B", 6); ("C", 5); ("P", 4);
   ("F", 0)]%string.

(** The three facts about the rounded quotient n/24 that are checked by
    computation for each of the 241 possible sums n. *)
Definition sgpa_in_range (n : Z) : bool :=
  bool_decide (Qc_of_Z 0 ≤ sgpa_of_points n)%Qc
  && bool_decide (sgpa_of_points n ≤ Qc_of_Z 10)%Qc
  && bool_decide (sgpa_of_points n = Qc_of_Z 10 ↔ n = 240).

(** The final row of a student within a frame. *)
Definition row_of (parse : string → option Qc) (df : list student) (s : student) : row :=
  {| cols := columns_of parse s;
     Rank := 1 + Z.of_nat (distinct_greater (SGPA <$> (columns_of parse <$> df))
                                              (SGPA (columns_of parse s))) |}.

(** The two sort keys of a row. *)
Definition topper_key (r : row) : Qc * string := (SGPA (cols r), Name (cols r)).

(** Rows with the same two sort keys as [k]. *)
Definition tied (k r : row) : bool := bool_decide (topper_key r = topper_key k).

(** ** Sample data *)

Definition no_text_number : string → option Qc := λ _, None.

(** A student with the same cell under every subject. *)
Definition uniform (name : string) (roll : Z) (c : cell) : student :=
  {| raw_RollNo := roll; raw_Name := name; raw_marks := λ _, c |}.

(** A student with 90 in subject 101 and 40 everywhere else. *)
Definition one_O_rest_P : student :=
  {| raw_RollNo := 5; raw_Name := "Dev";
     raw_marks := λ col, if decide (col = 101) then Num (Qc_of_Z 90)
                         else Num (Qc_of_Z 40) |}.

(** A small frame: two students of the same name and marks, a topper and
    an absentee. *)
Definition sample_df : list student :=
  [uniform "Ravi" 2 (Num (Qc_of_Z 60)); uniform "Asha" 1 (Num (Qc_of_Z 95));
   uniform "Zoya" 4 (Text "AB"); uniform "Ravi" 3 (Num (Qc_of_Z 60))].

(** The GP columns of a row with grade point 3 under every subject, a value
    that no grade has, beside a column under a key that is no subject. *)
Definition threes : gmap Z Z :=
  <[999 := 77]> (list_to_map ((λ sub, (sub, 3)) <$> subject_cols)).

(** ** The views built on the processed frame *)

Definition SUBJECT_NAMES : gmap Z string :=
  list_to_map
    [(101, "Discrete Structures"); (103, "Computer Networks");
     (105, "Operating Systems with Linux"); (107, "Database Management Systems");
     (109, "Object Oriented Programming with Java");
     (161, "Computer Networks Lab"); (163, "Operating Systems Lab");
     (165, "DBMS Lab"); (167, "OOP with Java Lab");
     (169, "Minor Project – I"); (171, "Professional Proficiency – I")]%string.

(** *** The student search *)

(** [Series.unique()]: the distinct values, in the order of their first
    appearance. *)
Definition unique (l : list string) : list string :=
  foldl (λ seen x, if decide (x ∈ seen) then seen else seen ++ [x]) [] l.

(** [sorted(df["Name"].unique())], the names offered by the select box. *)
Definition name_options (df : list row) : list string :=
  sort_by String.leb (unique ((λ r, Name (cols r)) <$> df)).

(** *** The subject-wise table of one student *)

Record table_row := mk_table_row {
  Subject_Code : Z;
  Subject_Name : string;
  Marks : Qc;
  Grade_shown : string;
  Grade_Point : Z;
  Credits : Z
}.

(** One entry per subject, in the order of [subject_cols]; a missing key in
    one of the tables or of the row is a KeyError, here [None]. *)
Definition subject_table (student_df : row) : option (list table_row) :=
  mapM (λ sub,
          name ← SUBJECT_NAMES !! sub;
          grade ← Grade (cols student_df) !! sub;
          gp ← GP (cols student_df) !! sub;
          credit ← CREDITS !! sub;
          Some {| Subject_Code := sub; Subject_Name := name;
                  Marks := marks (cols student_df) sub;
                  Grade_shown := grade; Grade_Point := gp; Credits := credit |})
       subject_cols.

(** *** Class analytics *)

(** [(column == 0).sum()] *)
Definition count_zero (col : list Z) : Z :=
  Z.of_nat (length (List.filter (λ x, bool_decide (x = 0)) col)).

(** The column [{sub}_GP] of the frame. *)
Definition GP_column (df : list row) (sub : Z) : option (list Z) :=
  mapM (λ r, GP (cols r) !! sub) df.

(** The dict comprehension over [subject_cols]: a later entry with the same
    key would replace an earlier one. *)
Definition fail_counts (df : list row) : option (gmap string Z) :=
  foldl (λ acc sub,
           d ← acc;
           name ← SUBJECT_NAMES !! sub;
           col ← GP_column df sub;
           Some (<[name := count_zero col]> d))
        (Some ∅) subject_cols.

(** *** The subject-wise topper list *)

(** Order of [sort_values(by=[selected_subject, "Name"],
    ascending=[False, True])]. *)
Definition subject_le (selected_subject : Z) (a b : row) : bool :=
  bool_decide (marks (cols b) selected_subject < marks (cols a) selected_subject)%Qc
  || (bool_decide (marks (cols a) selected_subject = marks (cols b) selected_subject)
      && String.leb (Name (cols a)) (Name (cols b))).

(** The sorted frame with its new column [Subject Rank] = index + 1. *)
Definition subject_topper_df (selected_subject : Z) (df : list row) : list (Z * row) :=
  imap (λ i r, (Z.of_nat i + 1, r)) (sort_by (subject_le selected_subject) df).

(** A line of the displayed list: Subject Rank, Roll No, Name, Marks, Grade. *)
Record topper_line := mk_topper_line {
  Subject_Rank : Z;
  line_RollNo : Z;
  line_Name : string;
  line_Marks : Qc;
  line_Grade : string
}.

(** The columns picked for display; the column [{selected_subject}_Grade]
    exists for the subjects of [subject_cols] only. *)
Definition subject_topper_view (selected_subject : Z) (df : list row)
    : option (list topper_line) :=
  mapM (λ '(rank, r),
          grade ← Grade (cols r) !! selected_subject;
          Some {| Subject_Rank := rank; line_RollNo := RollNo (cols r);
                  line_Name := Name (cols r);
                  line_Marks := marks (cols r) selected_subject;
                  line_Grade := grade |})
       (subject_topper_df selected_subject df).


(** *** The student search on a sheet with empty Name cells *)

(** A cell of the column Name as [read_excel] delivers it: a text, or NaN
    under an empty cell.  The rows above carry a text as their name; the
    sidebar is where an empty cell shows, so its code is modelled on frames
    of any kind of row that has a Name cell. *)
Inductive name_cell :=
  | NameText (s : string)
  | NameNaN.

#[global] Instance name_cell_eq_dec : EqDecision name_cell.
Proof. solve_decision. Defined.

(** [Series.unique()] on such a column; NaN is one value. *)
Definition unique_cells (l : list name_cell) : list name_cell :=
  foldl (λ seen x, if decide (x ∈ seen) then seen else seen ++ [x]) [] l.

(** Python's [a < b] as [sorted] asks it: the order of strings between two
    texts, False between two NaN, and a TypeError, here [None], between a
    text and a float. *)
Definition cell_lt (a b : name_cell) : option bool :=
  match a, b with
  | NameText s, NameText t => Some (String.ltb s t)
  | NameNaN, NameNaN => Some false
  | _, _ => None
  end.

(** [sorted(l)]: a stable sort that asks nothing but [<]; an element goes
    past the elements that are less than it.  In a list of two or more
    elements every element is compared with another one. *)
Fixpoint insert_cell (x : name_cell) (l : list name_cell) : option (list name_cell) :=
  match l with
  | [] => Some [x]
  | y :: l' =>
      b ← cell_lt y x;
      if b : bool then l'' ← insert_cell x l'; Some (y :: l'') else Some (x :: l)
  end.

Definition sorted_cells (l : list name_cell) : option (list name_cell) :=
  foldr (λ x acc, l' ← acc; insert_cell x l') (Some []) l.

(** What [st.sidebar.selectbox] can return: one of its options (the first
    one until the user picks another), and Python's None, here [None], when
    it has no option. *)
Definition selectbox_returns (options : list name_cell) (v : option name_cell) : Prop :=
  match v with
  | Some c => c ∈ options
  | None => options = []
  end.

(** An entry of the mask [df["Name"] == student_name]: NaN equals nothing,
    not even NaN, and no cell equals None. *)
Definition cell_eqb (c : name_cell) (student_name : option name_cell) : bool :=
  match c, student_name with
  | NameText s, Some (NameText t) => bool_decide (s = t)
  | _, _ => false
  end.

Section Sidebar.
Context {A : Type} (Name_cell : A → name_cell).

(** [sorted(df["Name"].unique())], the options of the select box. *)
Definition sidebar_options (df : list A) : option (list name_cell) :=
  sorted_cells (unique_cells (Name_cell <$> df)).

(** [df[df["Name"] == student_name].iloc[0]]; on an empty selection
    [iloc[0]] raises an IndexError, here [None]. *)
Definition sidebar_student (df : list A) (student_name : option name_cell) : option A :=
  head (List.filter (λ r, cell_eqb (Name_cell r) student_name) df).
End Sidebar.

(** The Name cell of a row of the processed frame. *)
Definition text_name (r : row) : name_cell := NameText (Name (cols r)).

(** * Properties *)

(** ** Comparisons *)

Lemma ge_true (x : Qc) (k : Z) : ge x (Qc_of_Z k) = true ↔ (inject_Z k <= x)%Q.
Proof. unfold ge. rewrite bool_decide_eq_true. reflexivity. Qed.

Lemma ge_false (x : Qc) (k : Z) : ge x (Qc_of_Z k) = false ↔ (x < inject_Z k)%Q.
Proof.
  unfold ge. rewrite bool_decide_eq_false. split.
  - intros H. apply Qnot_le_lt. exact H.
  - intros H Hle. exact (Qlt_not_le _ _ H Hle).
Qed.

(** Splits on every threshold test in the goal and turns the outcomes into
    inequalities between rationals. *)
Ltac bands :=
  unfold grade_and_point;
  repeat match goal with
         | |- context [ge ?x (Qc_of_Z ?k)] =>
             let E := fresh "E" in
             destruct (ge x (Qc_of_Z k)) eqn:E;
             [apply ge_true in E | apply ge_false in E]
         end;
  repeat match goal with
         | H : _ ∧ _ |- _ => destruct H
         end;
  unfold Qcle, Qclt in *; cbn [this Qc_of_Z] in *; unfold inject_Z in *.

(** ** Grade assignment *)

(** C2: [grade_and_point] is defined on every mark and returns the band of
    the descending threshold table, the lower edge of each band included:
    O from 90, A+ on [75, 90), A on [65, 75), B+ on [55, 65), B on [50, 55),
    C on [45, 50), P on [40, 45) and F below 40; in particular 90 is (O, 10),
    40 is (P, 4) and 39.9 is (F, 0). *)
Theorem grade_and_point_bands (m : Qc) :
  ((Qc_of_Z 90 ≤ m)%Qc → grade_and_point m = ("O"%string, 10)) ∧
  ((Qc_of_Z 75 ≤ m < Qc_of_Z 90)%Qc → grade_and_point m = ("A+"%string, 9)) ∧
  ((Qc_of_Z 65 ≤ m < Qc_of_Z 75)%Qc → grade_and_point m = ("A"%string, 8)) ∧
  ((Qc_of_Z 55 ≤ m < Qc_of_Z 65)%Qc → grade_and_point m = ("B+"%string, 7)) ∧
  ((Qc_of_Z 50 ≤ m < Qc_of_Z 55)%Qc → grade_and_point m = ("B"%string, 6)) ∧
  ((Qc_of_Z 45 ≤ m < Qc_of_Z 50)%Qc → grade_and_point m = ("C"%string, 5)) ∧
  ((Qc_of_Z 40 ≤ m < Qc_of_Z 45)%Qc → grade_and_point m = ("P"%string, 4)) ∧
  ((m < Qc_of_Z 40)%Qc → grade_and_point m = ("F"%string, 0)) ∧
  grade_and_point (Qc_of_Z 90) = ("O"%string, 10) ∧
  grade_and_point (Qc_of_Z 40) = ("P"%string, 4) ∧
  grade_and_point (Q2Qc (399 # 10)) = ("F"%string, 0).
Proof.
  repeat split; try (vm_compute; reflexivity);
    intros H; bands; solve [reflexivity | exfalso; lra].
Qed.

(** C8: the grade point is monotone in the mark. *)
Theorem grade_point_monotone (m1 m2 : Qc) :
  (m1 ≤ m2)%Qc → (grade_and_point m1).2 ≤ (grade_and_point m2).2.
Proof.
  intros H. bands; cbn [snd]; solve [lia | exfalso; lra].
Qed.

Lemma grade_point_monotone_witness :
  (Qc_of_Z 40 ≤ Qc_of_Z 90)%Qc ∧
  (grade_and_point (Qc_of_Z 40)).2 ≤ (grade_and_point (Qc_of_Z 90)).2.
Proof.
  assert (H : (Qc_of_Z 40 ≤ Qc_of_Z 90)%Qc) by (vm_compute; discriminate).
  split; [exact H | exact (grade_point_monotone _ _ H)].
Defined.

(** C9: the pair returned for a mark is one of the eight pairs of the table;
    grade and grade point determine each other, a grade is F exactly when
    its point is 0, and no point lies in 1..3. *)
Theorem grade_and_point_in_table (m : Qc) :
  grade_and_point m ∈ grade_table ∧
  ((grade_and_point m).1 = "F"%string ↔ (grade_and_point m).2 = 0) ∧
  ¬ (1 ≤ (grade_and_point m).2 ≤ 3) ∧
  (∀ m' : Qc, (grade_and_point m).1 = (grade_and_point m').1 ↔
              (grade_and_point m).2 = (grade_and_point m').2).
Proof.
  split; [|split; [|split]].
  - unfold grade_table. bands; set_solver.
  - bands; cbn [fst snd]; split; intros H; congruence.
  - bands; cbn [snd]; lia.
  - intros m'. bands; cbn [fst snd]; split; intros H; congruence.
Qed.

(** ** Input normalization *)

Lemma clean_Num parse (q : Qc) : clean parse (Num q) = q.
Proof. reflexivity. Qed.

(** C5, as the script has it: cleaning never fails; an empty cell and a text
    that is no number become 0, and every number keeps its value, whether
    or not it lies in 0..100 (a text that reads as a number takes that
    number). *)
Theorem clean_coerces (parse : string → option Qc) :
  clean parse Missing = Qc_of_Z 0 ∧
  (∀ s, parse s = None → clean parse (Text s) = Qc_of_Z 0) ∧
  (∀ s q, parse s = Some q → clean parse (Text s) = q) ∧
  (∀ q, clean parse (Num q) = q) ∧
  (∀ c, to_numeric parse c = None → clean parse c = Qc_of_Z 0) ∧
  (∀ c q, to_numeric parse c = Some q → clean parse c = q).
Proof.
  unfold clean. repeat split.
  - intros s Hs. cbn [to_numeric]. rewrite Hs. reflexivity.
  - intros s q Hs. cbn [to_numeric]. rewrite Hs. reflexivity.
  - intros c Hc. rewrite Hc. reflexivity.
  - intros c q Hc. rewrite Hc. reflexivity.
Qed.

(** C5 as the specification words it fails: a numeric cell outside 0..100,
    here 150, is not turned into 0. *)
Lemma clean_out_of_range_kept :
  ¬ (∀ (parse : string → option Qc) (q : Qc),
       (q < Qc_of_Z 0 ∨ Qc_of_Z 100 < q)%Qc → clean parse (Num q) = Qc_of_Z 0).
Proof.
  intros H.
  specialize (H no_text_number (Qc_of_Z 150)).
  rewrite clean_Num in H.
  assert (Hr : (Qc_of_Z 100 < Qc_of_Z 150)%Qc) by reflexivity.
  specialize (H (or_intror Hr)). discriminate H.
Qed.

(** ** The grade columns *)

Lemma foldl_insert_lookup {V} (f : Z → V) (l : list Z) (m : gmap Z V) (k : Z) :
  foldl (λ m col, <[col := f col]> m) m l !! k
  = if decide (k ∈ l) then Some (f k) else m !! k.
Proof.
  revert m. induction l as [|x l IH]; intros m; cbn [foldl].
  - rewrite decide_False by set_solver. reflexivity.
  - rewrite IH. destruct (decide (k ∈ l)) as [Hin|Hin].
    + rewrite decide_True by set_solver. reflexivity.
    + destruct (decide (k = x)) as [->|Hne].
      * rewrite lookup_insert_eq, decide_True by apply list_elem_of_here.
        reflexivity.
      * rewrite lookup_insert_ne by congruence.
        rewrite decide_False by (apply not_elem_of_cons; auto). reflexivity.
Qed.

Lemma apply_grades_split (marks : Z → Qc) (l : list Z) (G : gmap Z string) (P : gmap Z Z) :
  foldl (λ '(grades, gps) col,
           (<[col := (grade_and_point (marks col)).1]> grades,
            <[col := (grade_and_point (marks col)).2]> gps)) (G, P) l
  = (foldl (λ m col, <[col := grade_of (marks col)]> m) G l,
     foldl (λ m col, <[col := point_of (marks col)]> m) P l).
Proof.
  revert G P. induction l as [|x l IH]; intros G P; cbn [foldl].
  - reflexivity.
  - rewrite IH. reflexivity.
Qed.

Lemma apply_grades_Grade (marks : Z → Qc) (sub : Z) :
  (apply_grades marks).1 !! sub
  = if decide (sub ∈ subject_cols) then Some (grade_of (marks sub)) else None.
Proof.
  unfold apply_grades. rewrite apply_grades_split. cbn [fst].
  rewrite foldl_insert_lookup, lookup_empty. reflexivity.
Qed.

Lemma apply_grades_GP (marks : Z → Qc) (sub : Z) :
  (apply_grades marks).2 !! sub
  = if decide (sub ∈ subject_cols) then Some (point_of (marks sub)) else None.
Proof.
  unfold apply_grades. rewrite apply_grades_split. cbn [snd].
  rewrite foldl_insert_lookup, lookup_empty. reflexivity.
Qed.

(** ** SGPA *)

Lemma CREDITS_subject (sub : Z) :
  sub ∈ subject_cols → CREDITS !! sub = Some (credit sub).
Proof.
  revert sub. apply Forall_forall. unfold subject_cols.
  repeat (apply Forall_cons; split; [reflexivity|]). apply Forall_nil_2.
Qed.

Lemma total_credit_sum_24 : total_credit_sum = 24.
Proof. reflexivity. Qed.

Lemma sgpa_loop (P : gmap Z Z) (p : Z → Z) (l : list Z) (t c : Z) :
  (∀ sub, sub ∈ l → CREDITS !! sub = Some (credit sub) ∧ P !! sub = Some (p sub)) →
  foldl (sgpa_step P) (Some (t, c)) l
  = Some (t + Zsum ((λ sub, credit sub * p sub) <$> l), c + Zsum (credit <$> l)).
Proof.
  revert t c. induction l as [|x l IH]; intros t c Hl; cbn [foldl fmap list_fmap Zsum foldr].
  - rewrite !Z.add_0_r. reflexivity.
  - destruct (Hl x) as [Hc Hp]; [apply list_elem_of_here|].
    unfold sgpa_step at 2. cbn [mbind option_bind]. rewrite Hc, Hp. cbn [mbind option_bind].
    rewrite IH by (intros sub Hsub; apply Hl, list_elem_of_further, Hsub).
    fold (Zsum ((λ sub, credit sub * p sub) <$> l)). fold (Zsum (credit <$> l)).
    f_equal. f_equal; lia.
Qed.

Lemma calculate_sgpa_eq (marks : Z → Qc) :
  calculate_sgpa (apply_grades marks).2
  = Some (round (Q2Qc (inject_Z (weighted_points marks) / inject_Z 24)) 2).
Proof.
  unfold calculate_sgpa.
  rewrite (sgpa_loop _ (λ sub, point_of (marks sub))).
  - fold (weighted_points marks). fold total_credit_sum.
    rewrite total_credit_sum_24. rewrite !Z.add_0_l.
    cbn [mbind option_bind]. unfold truediv.
    rewrite decide_False by lia. reflexivity.
  - intros sub Hsub. split; [apply CREDITS_subject; exact Hsub|].
    rewrite apply_grades_GP, decide_True by exact Hsub. reflexivity.
Qed.

Lemma sgpa_in_range_all (n : Z) : 0 ≤ n ≤ 240 → sgpa_in_range n = true.
Proof.
  intros Hn.
  assert (Hall : forallb sgpa_in_range (seqZ 0 241) = true) by (vm_compute; reflexivity).
  rewrite forallb_forall in Hall. apply Hall.
  apply list_elem_of_In, elem_of_seqZ. lia.
Qed.

(** ** Pass or fail *)

Lemma mapM_lookup_cols (P : gmap Z Z) (p : Z → Z) (l : list Z) :
  (∀ sub, sub ∈ l → P !! sub = Some (p sub)) →
  mapM (λ s, P !! s) l = Some (p <$> l).
Proof.
  intros Hl. apply mapM_Some. apply Forall2_fmap_r, Forall_Forall2_diag.
  apply Forall_forall. exact Hl.
Qed.

Lemma foldl_min_le (l : list Z) (x : Z) :
  foldl Z.min x l ≤ x ∧ (∀ y, y ∈ l → foldl Z.min x l ≤ y).
Proof.
  revert x. induction l as [|a l IH]; intros x; cbn [foldl].
  - split; [lia|]. intros y Hy. apply elem_of_nil in Hy. destruct Hy.
  - destruct (IH (Z.min x a)) as [H1 H2]. split; [lia|].
    intros y Hy. apply elem_of_cons in Hy as [->|Hy]; [lia|]. apply H2, Hy.
Qed.

Lemma foldl_min_in (l : list Z) (x : Z) :
  foldl Z.min x l = x ∨ foldl Z.min x l ∈ l.
Proof.
  revert x. induction l as [|a l IH]; intros x; cbn [foldl].
  - left. reflexivity.
  - destruct (IH (Z.min x a)) as [H|H].
    + rewrite H. destruct (Z.min_spec x a) as [[_ ->]|[_ ->]]; [left|right]; set_solver.
    + right. set_solver.
Qed.

(** [row_min] of a non-empty list is its least element. *)
Lemma row_min_spec (l : list Z) :
  l ≠ [] → ∃ m, row_min l = Some m ∧ m ∈ l ∧ ∀ y, y ∈ l → m ≤ y.
Proof.
  destruct l as [|x l]; [congruence|]. intros _.
  exists (foldl Z.min x l). split; [reflexivity|].
  destruct (foldl_min_le l x) as [H1 H2]. split.
  - destruct (foldl_min_in l x) as [->|H]; set_solver.
  - intros y Hy. apply elem_of_cons in Hy as [->|Hy]; [exact H1|apply H2, Hy].
Qed.

Lemma result_of_eq (marks : Z → Qc) :
  result_of (apply_grades marks).2
  = Some (pass_or_fail (row_min ((λ sub, point_of (marks sub)) <$> subject_cols))).
Proof.
  unfold result_of.
  rewrite (mapM_lookup_cols _ (λ sub, point_of (marks sub))); [reflexivity|].
  intros sub Hsub. rewrite apply_grades_GP, decide_True by exact Hsub. reflexivity.
Qed.

(** ** The row-wise columns *)

(** Scoring a row of the sheet never fails, and these are its columns. *)
Lemma score_eq parse (s : student) : score parse s = Some (columns_of parse s).
Proof.
  unfold score, columns_of. fold (cleaned parse s).
  pose proof (calculate_sgpa_eq (cleaned parse s)) as Hs.
  pose proof (result_of_eq (cleaned parse s)) as Hr.
  destruct (apply_grades (cleaned parse s)) as [G P]. cbn [fst snd] in *.
  rewrite Hs, Hr. reflexivity.
Qed.

(** ** Sorting by insertion *)

Section Sorting.
Context {A : Type} (le : A → A → bool).

Lemma insert_by_perm (x : A) (l : list A) : insert_by le x l ≡ₚ x :: l.
Proof.
  induction l as [|y l IH]; cbn [insert_by]; [reflexivity|].
  destruct (le x y); [reflexivity|].
  rewrite IH. apply Permutation_swap.
Qed.

Lemma sort_by_perm (l : list A) : sort_by le l ≡ₚ l.
Proof.
  induction l as [|x l IH]; cbn; [reflexivity|].
  fold (sort_by le l). rewrite insert_by_perm, IH. reflexivity.
Qed.

Lemma sort_by_length (l : list A) : length (sort_by le l) = length l.
Proof. apply Permutation_length, sort_by_perm. Qed.

Lemma sort_by_elem_of (x : A) (l : list A) : x ∈ sort_by le l ↔ x ∈ l.
Proof. rewrite sort_by_perm. reflexivity. Qed.

Hypothesis le_total : ∀ x y, le x y = true ∨ le y x = true.
Hypothesis le_trans : ∀ x y z, le x y = true → le y z = true → le x z = true.

Lemma insert_by_sorted (x : A) (l : list A) :
  StronglySorted (λ a b, le a b = true) l →
  StronglySorted (λ a b, le a b = true) (insert_by le x l).
Proof.
  induction 1 as [|y l Hl IH Hy]; cbn [insert_by].
  - repeat constructor.
  - destruct (le x y) eqn:E.
    + constructor; [constructor; assumption|].
      constructor; [exact E|].
      eapply Forall_impl; [exact Hy|]. intros z Hz. exact (le_trans _ _ _ E Hz).
    + constructor; [exact IH|].
      rewrite insert_by_perm. constructor; [|exact Hy].
      destruct (le_total x y) as [H|H]; [congruence|exact H].
Qed.

Lemma sort_by_sorted (l : list A) :
  StronglySorted (λ a b, le a b = true) (sort_by le l).
Proof.
  induction l as [|x l IH]; cbn; [constructor|].
  apply insert_by_sorted. exact IH.
Qed.

End Sorting.

(** ** Dense ranks *)

Lemma desc_total (x y : Qc) : desc x y = true ∨ desc y x = true.
Proof.
  unfold desc. rewrite !bool_decide_eq_true.
  destruct (Qc_le_total x y); auto.
Qed.

Lemma desc_trans (x y z : Qc) : desc x y = true → desc y z = true → desc x z = true.
Proof.
  unfold desc. rewrite !bool_decide_eq_true. intros H1 H2.
  exact (Qcle_trans _ _ _ H2 H1).
Qed.

Lemma distinct_greater_top (col : list Qc) (x : Qc) :
  (∀ z, z ∈ col → (z ≤ x)%Qc) → distinct_greater col x = 0%nat.
Proof.
  intros Hx. unfold distinct_greater. apply size_empty_iff.
  intros z. rewrite elem_of_filter, elem_of_list_to_set.
  split; [|set_solver]. intros [Hlt Hz]. exfalso.
  exact (Qclt_not_le _ _ Hlt (Hx z Hz)).
Qed.

(** Going down from [prev] to the next value [x] of the column adds exactly
    [prev] to the values above. *)
Lemma distinct_greater_next (col : list Qc) (prev x : Qc) :
  prev ∈ col → (x < prev)%Qc →
  (∀ z, z ∈ col → (prev ≤ z)%Qc ∨ (z ≤ x)%Qc) →
  distinct_greater col x = S (distinct_greater col prev).
Proof.
  intros Hprev Hlt Hgap. unfold distinct_greater.
  assert (Heq : filter (λ y, (x < y)%Qc) (list_to_set col : gset Qc)
                = {[prev]} ∪ filter (λ y, (prev < y)%Qc) (list_to_set col : gset Qc)).
  { apply set_eq. intros z.
    rewrite elem_of_union, elem_of_singleton, !elem_of_filter, !elem_of_list_to_set.
    split.
    - intros [Hz Hin]. destruct (Hgap z Hin) as [Hle|Hle].
      + destruct (Qcle_lt_or_eq _ _ Hle) as [H|H]; [right; auto|left; auto].
      + exfalso. exact (Qclt_not_le _ _ Hz Hle).
    - intros [->|[Hz Hin]]; [auto|]. split; [|exact Hin].
      exact (Qclt_trans _ _ _ Hlt Hz). }
  rewrite Heq, size_union, size_singleton; [reflexivity|].
  intros z. rewrite elem_of_singleton, elem_of_filter. intros -> [Hz _].
  exact (Qclt_not_eq _ _ Hz eq_refl).
Qed.

Lemma dense_walk_spec (col rest : list Qc) (prev : Qc) (seen : Z) :
  StronglySorted (λ a b, desc a b = true) (prev :: rest) →
  prev ∈ col → (∀ z, z ∈ rest → z ∈ col) →
  (∀ z, z ∈ col → (prev ≤ z)%Qc ∨ z ∈ rest) →
  seen = 1 + Z.of_nat (distinct_greater col prev) →
  ∀ y r, (y, r) ∈ dense_walk prev seen rest →
         r = 1 + Z.of_nat (distinct_greater col y).
Proof.
  revert prev seen. induction rest as [|x rest IH]; intros prev seen Hs Hp Hr Hc Hseen y r Hy.
  - cbn in Hy. apply elem_of_nil in Hy. destruct Hy.
  - apply StronglySorted_inv in Hs as [Hs' Hhd].
    assert (Hxp : (x ≤ prev)%Qc).
    { apply Forall_cons in Hhd as [Hx _].
      unfold desc in Hx. apply bool_decide_eq_true in Hx. exact Hx. }
    assert (Hbelow : ∀ z, z ∈ rest → (z ≤ x)%Qc).
    { apply StronglySorted_inv in Hs' as [_ Hx'].
      intros z Hz. rewrite Forall_forall in Hx'. specialize (Hx' z Hz).
      unfold desc in Hx'. apply bool_decide_eq_true in Hx'. exact Hx'. }
    cbn [dense_walk] in Hy.
    set (seen' := if decide (x = prev) then seen else seen + 1) in *.
    assert (Hseen' : seen' = 1 + Z.of_nat (distinct_greater col x)).
    { subst seen'. destruct (decide (x = prev)) as [->|Hne]; [exact Hseen|].
      rewrite (distinct_greater_next col prev x); [lia|exact Hp| |].
      - destruct (Qcle_lt_or_eq _ _ Hxp) as [H|H]; [exact H|contradiction].
      - intros z Hz. destruct (Hc z Hz) as [H|H]; [left; exact H|right].
        apply elem_of_cons in H as [->|H]; [apply Qcle_refl|apply Hbelow, H]. }
    apply elem_of_cons in Hy as [Hy|Hy].
    + injection Hy as -> ->. exact Hseen'.
    + apply (IH x seen'); try assumption.
      * apply Hr. set_solver.
      * intros z Hz. apply Hr. set_solver.
      * intros z Hz. destruct (Hc z Hz) as [H|H].
        -- left. exact (Qcle_trans _ _ _ Hxp H).
        -- apply elem_of_cons in H as [->|H]; [left; apply Qcle_refl|right; exact H].
Qed.

Lemma dense_walk_fst (l : list Qc) (prev : Qc) (seen : Z) :
  (dense_walk prev seen l).*1 = l.
Proof.
  revert prev seen. induction l as [|x l IH]; intros prev seen; cbn; [reflexivity|].
  f_equal. apply IH.
Qed.

Lemma dense_numbering_fst (l : list Qc) : (dense_numbering l).*1 = l.
Proof. destruct l as [|x l]; cbn; [reflexivity|]. f_equal. apply dense_walk_fst. Qed.

Lemma dense_numbering_spec (col : list Qc) (y : Qc) (r : Z) :
  (y, r) ∈ dense_numbering (sort_by desc col) →
  r = 1 + Z.of_nat (distinct_greater col y).
Proof.
  pose proof (sort_by_sorted desc desc_total desc_trans col) as Hs.
  pose proof (sort_by_elem_of desc) as Hin.
  destruct (sort_by desc col) as [|x rest] eqn:E; cbn [dense_numbering].
  - intros Hy. apply elem_of_nil in Hy. destruct Hy.
  - assert (Htop : distinct_greater col x = 0%nat).
    { apply distinct_greater_top. intros z Hz.
      apply Hin in Hz. rewrite E in Hz.
      apply elem_of_cons in Hz as [->|Hz]; [apply Qcle_refl|].
      apply StronglySorted_inv in Hs as [_ Hx]. rewrite Forall_forall in Hx.
      specialize (Hx z Hz). unfold desc in Hx. apply bool_decide_eq_true in Hx. exact Hx. }
    intros Hy. apply elem_of_cons in Hy as [Hy|Hy].
    + injection Hy as -> ->. rewrite Htop. reflexivity.
    + apply (dense_walk_spec col rest x 1); try assumption.
      * apply Hin. rewrite E. apply list_elem_of_here.
      * intros z Hz. apply Hin. rewrite E. apply list_elem_of_further, Hz.
      * intros z Hz. apply Hin in Hz. rewrite E in Hz.
        apply elem_of_cons in Hz as [->|Hz]; [left; apply Qcle_refl|right; exact Hz].
      * rewrite Htop. reflexivity.
Qed.

(** The dense ranks of a column: every entry gets one, and it is one more
    than the number of distinct values above it. *)
Lemma rank_dense_eq (col : list Qc) :
  rank_dense col = Some ((λ x, 1 + Z.of_nat (distinct_greater col x)) <$> col).
Proof.
  unfold rank_dense. apply mapM_Some, Forall2_fmap_r, Forall_Forall2_diag.
  apply Forall_forall. intros x Hx.
  destruct (list_to_map (dense_numbering (sort_by desc col)) !! x) as [r|] eqn:E.
  - apply elem_of_list_to_map_2 in E. apply dense_numbering_spec in E.
    rewrite E. reflexivity.
  - apply not_elem_of_list_to_map in E. exfalso. apply E.
    rewrite dense_numbering_fst. apply sort_by_elem_of. exact Hx.
Qed.

(** ** The processed frame *)

Lemma zip_with_fmap_same {X Y W} (f : X → Y → W) (g : X → Y) (l : list X) :
  zip_with f l (g <$> l) = (λ x, f x (g x)) <$> l.
Proof. induction l as [|x l IH]; cbn; [reflexivity|]. rewrite IH. reflexivity. Qed.

(** Processing a frame never fails. *)
Lemma process_eq parse (df : list student) :
  process parse df = Some (row_of parse df <$> df).
Proof.
  unfold process.
  assert (Hm : mapM (score parse) df = Some (columns_of parse <$> df)).
  { apply mapM_Some, Forall2_fmap_r, Forall_Forall2_diag, Forall_forall.
    intros s _. apply score_eq. }
  rewrite Hm. cbn [mbind option_bind].
  rewrite rank_dense_eq. cbn [mbind option_bind].
  set (rank := λ x, 1 + Z.of_nat (distinct_greater (SGPA <$> (columns_of parse <$> df)) x)).
  rewrite <- (list_fmap_compose SGPA rank), zip_with_fmap_same, <- list_fmap_compose.
  reflexivity.
Qed.

Lemma process_rows parse (df : list student) (rows : list row) (r : row) :
  process parse df = Some rows → r ∈ rows →
  rows = row_of parse df <$> df ∧ ∃ s, s ∈ df ∧ r = row_of parse df s.
Proof.
  rewrite process_eq. intros [= <-] Hr. split; [reflexivity|].
  apply list_elem_of_fmap in Hr as (s & -> & Hs). exists s. auto.
Qed.

Lemma SGPA_column parse (df : list student) :
  SGPA <$> (columns_of parse <$> df) = (λ r, SGPA (cols r)) <$> (row_of parse df <$> df).
Proof. rewrite <- !list_fmap_compose. reflexivity. Qed.

Lemma row_of_marks parse df s : marks (cols (row_of parse df s)) = cleaned parse s.
Proof. reflexivity. Qed.

Lemma row_of_Grade parse df s :
  Grade (cols (row_of parse df s)) = (apply_grades (cleaned parse s)).1.
Proof. reflexivity. Qed.

Lemma row_of_GP parse df s :
  GP (cols (row_of parse df s)) = (apply_grades (cleaned parse s)).2.
Proof. reflexivity. Qed.

Lemma row_of_SGPA parse df s :
  SGPA (cols (row_of parse df s)) = sgpa_of_points (weighted_points (cleaned parse s)).
Proof. reflexivity. Qed.

Lemma row_of_Result parse df s :
  Result (cols (row_of parse df s))
  = pass_or_fail (row_min ((λ sub, point_of (cleaned parse s sub)) <$> subject_cols)).
Proof. reflexivity. Qed.

Lemma weighted_points_unfold (m : Z → Qc) :
  weighted_points m
  = 4 * point_of (m 101) + 3 * point_of (m 103) + 3 * point_of (m 105)
    + 3 * point_of (m 107) + 3 * point_of (m 109) + 1 * point_of (m 161)
    + 1 * point_of (m 163) + 1 * point_of (m 165) + 1 * point_of (m 167)
    + 3 * point_of (m 169) + 1 * point_of (m 171).
Proof.
  unfold weighted_points, subject_cols. cbn [fmap list_fmap Zsum foldr].
  change (credit 101) with 4. change (credit 103) with 3. change (credit 105) with 3.
  change (credit 107) with 3. change (credit 109) with 3. change (credit 161) with 1.
  change (credit 163) with 1. change (credit 165) with 1. change (credit 167) with 1.
  change (credit 169) with 3. change (credit 171) with 1. lia.
Qed.

Lemma point_of_range (m : Qc) :
  0 ≤ point_of m ≤ 10 ∧ (point_of m = 10 ↔ (Qc_of_Z 90 ≤ m)%Qc).
Proof.
  unfold point_of. split; [bands; cbn [snd]; lia|].
  bands; cbn [snd]; split; intros H; solve [reflexivity | discriminate | lra | lia].
Qed.

Lemma subject_cols_forall (Q : Z → Prop) :
  (∀ sub, sub ∈ subject_cols → Q sub)
  ↔ Q 101 ∧ Q 103 ∧ Q 105 ∧ Q 107 ∧ Q 109 ∧ Q 161 ∧ Q 163 ∧ Q 165 ∧ Q 167
    ∧ Q 169 ∧ Q 171.
Proof.
  rewrite <- Forall_forall. unfold subject_cols.
  rewrite !Forall_cons, Forall_nil. tauto.
Qed.

(** C1: processing a sheet succeeds, its rows carry the cleaned marks of
    the sheet, and the SGPA of every row is the quotient of the sum of
    credit times grade point over the eleven subjects by the sum of the
    credits, rounded to two decimals; the divisor is 24, the sum of the
    table of credits, never zero, so the division is defined. *)
Theorem sgpa_formula parse (df : list student) :
  ∃ rows, process parse df = Some rows ∧
  (λ r, marks (cols r)) <$> rows = cleaned parse <$> df ∧ ∀ r, r ∈ rows →
  (∀ sub, sub ∈ subject_cols →
     CREDITS !! sub = Some (credit sub) ∧
     GP (cols r) !! sub = Some (point_of (marks (cols r) sub))) ∧
  truediv (weighted_points (marks (cols r))) total_credit_sum
    = Some (Q2Qc (inject_Z (weighted_points (marks (cols r))) / inject_Z total_credit_sum)) ∧
  SGPA (cols r)
    = round (Q2Qc (inject_Z (weighted_points (marks (cols r))) / inject_Z total_credit_sum)) 2 ∧
  total_credit_sum = 24 ∧ Zsum (map_to_list CREDITS).*2 = 24 ∧ total_credit_sum ≠ 0.
Proof.
  pose proof (process_eq parse df) as Hp.
  exists (row_of parse df <$> df). split; [exact Hp|].
  split; [rewrite <- list_fmap_compose; reflexivity|].
  generalize dependent (row_of parse df <$> df). intros rows Hp.
  intros r Hr. destruct (process_rows _ _ _ _ Hp Hr) as [_ (s & _ & ->)].
  rewrite row_of_marks, row_of_GP, row_of_SGPA.
  split; [|split; [|split; [|split; [|split]]]].
  - intros sub Hsub. split; [apply CREDITS_subject, Hsub|].
    rewrite apply_grades_GP, decide_True by exact Hsub. reflexivity.
  - unfold truediv. rewrite total_credit_sum_24, decide_False by lia. reflexivity.
  - rewrite total_credit_sum_24. reflexivity.
  - exact total_credit_sum_24.
  - vm_compute. reflexivity.
  - rewrite total_credit_sum_24. lia.
Qed.

Lemma sample_row_in parse (s : student) :
  In s sample_df → row_of parse sample_df s ∈ row_of parse sample_df <$> sample_df.
Proof. intros H. apply list_elem_of_fmap_2, list_elem_of_In, H. Qed.

Lemma sgpa_formula_witness :
  ∃ rows r,
    process no_text_number sample_df = Some rows ∧ r ∈ rows ∧
    SGPA (cols r)
    = round (Q2Qc (inject_Z (weighted_points (marks (cols r))) / inject_Z total_credit_sum)) 2.
Proof.
  destruct (sgpa_formula no_text_number sample_df) as (rows & Hp & _ & H).
  assert (Hr : row_of no_text_number sample_df (uniform "Asha" 1 (Num (Qc_of_Z 95)))
               ∈ rows).
  { rewrite process_eq in Hp. injection Hp as <-.
    apply sample_row_in. right; left; reflexivity. }
  exists rows, (row_of no_text_number sample_df (uniform "Asha" 1 (Num (Qc_of_Z 95)))).
  split; [exact Hp|]. split; [exact Hr|].
  exact (proj1 (proj2 (proj2 (H _ Hr)))).
Defined.

Lemma sgpa_of_points_range (n : Z) :
  0 ≤ n ≤ 240 →
  (Qc_of_Z 0 ≤ sgpa_of_points n)%Qc ∧ (sgpa_of_points n ≤ Qc_of_Z 10)%Qc ∧
  (sgpa_of_points n = Qc_of_Z 10 ↔ n = 240).
Proof.
  intros Hn. pose proof (sgpa_in_range_all _ Hn) as Hchk.
  unfold sgpa_in_range in Hchk.
  apply andb_prop in Hchk as [Hchk H3]. apply andb_prop in Hchk as [H1 H2].
  apply bool_decide_eq_true in H1, H2, H3. auto.
Qed.

(** C7: processing a sheet succeeds, its rows carry the cleaned marks of
    the sheet, and the SGPA of every row lies between 0 and 10; it is 10
    exactly when the cleaned mark of each of the eleven subjects is at
    least 90. *)
Theorem sgpa_bounds parse (df : list student) :
  ∃ rows, process parse df = Some rows ∧
  (λ r, marks (cols r)) <$> rows = cleaned parse <$> df ∧ ∀ r, r ∈ rows →
  (Qc_of_Z 0 ≤ SGPA (cols r))%Qc ∧ (SGPA (cols r) ≤ Qc_of_Z 10)%Qc ∧
  (SGPA (cols r) = Qc_of_Z 10
   ↔ ∀ sub, sub ∈ subject_cols → (Qc_of_Z 90 ≤ marks (cols r) sub)%Qc).
Proof.
  pose proof (process_eq parse df) as Hp.
  exists (row_of parse df <$> df). split; [exact Hp|].
  split; [rewrite <- list_fmap_compose; reflexivity|].
  generalize dependent (row_of parse df <$> df). intros rows Hp.
  intros r Hr. destruct (process_rows _ _ _ _ Hp Hr) as [_ (s & _ & ->)].
  rewrite row_of_SGPA, row_of_marks.
  generalize (cleaned parse s). intros m.
  pose proof (weighted_points_unfold m) as Hw.
  pose proof (point_of_range (m 101)) as [B1 E1].
  pose proof (point_of_range (m 103)) as [B2 E2].
  pose proof (point_of_range (m 105)) as [B3 E3].
  pose proof (point_of_range (m 107)) as [B4 E4].
  pose proof (point_of_range (m 109)) as [B5 E5].
  pose proof (point_of_range (m 161)) as [B6 E6].
  pose proof (point_of_range (m 163)) as [B7 E7].
  pose proof (point_of_range (m 165)) as [B8 E8].
  pose proof (point_of_range (m 167)) as [B9 E9].
  pose proof (point_of_range (m 169)) as [B10 E10].
  pose proof (point_of_range (m 171)) as [B11 E11].
  assert (Hn : 0 ≤ weighted_points m ≤ 240) by lia.
  destruct (sgpa_of_points_range _ Hn) as (H1 & H2 & H3).
  split; [exact H1|]. split; [exact H2|].
  rewrite H3, subject_cols_forall.
  rewrite <- E1, <- E2, <- E3, <- E4, <- E5, <- E6, <- E7, <- E8, <- E9, <- E10, <- E11.
  lia.
Qed.

Lemma sgpa_bounds_witness :
  ∃ rows r,
    process no_text_number sample_df = Some rows ∧ r ∈ rows ∧
    (Qc_of_Z 0 ≤ SGPA (cols r))%Qc ∧ (SGPA (cols r) ≤ Qc_of_Z 10)%Qc.
Proof.
  destruct (sgpa_bounds no_text_number sample_df) as (rows & Hp & _ & H).
  assert (Hr : row_of no_text_number sample_df (uniform "Zoya" 4 (Text "AB")) ∈ rows).
  { rewrite process_eq in Hp. injection Hp as <-.
    apply sample_row_in. right; right; left; reflexivity. }
  exists rows, (row_of no_text_number sample_df (uniform "Zoya" 4 (Text "AB"))).
  split; [exact Hp|]. split; [exact Hr|].
  split; [exact (proj1 (H _ Hr))|exact (proj1 (proj2 (H _ Hr)))].
Defined.

(** ** Pass or fail, row by row *)

Lemma point_of_values (m : Qc) : point_of m = 0 ∨ 4 ≤ point_of m.
Proof. unfold point_of. bands; cbn [snd]; lia. Qed.

(** C3: processing a sheet succeeds, and in every row of the processed
    frame the result is FAIL when the least grade point of the eleven
    subjects is below 4 and PASS otherwise; it is FAIL exactly when some
    subject has grade point 0, and PASS exactly when every grade point is
    at least 4, whatever the SGPA. *)
Theorem result_rule parse (df : list student) :
  ∃ rows, process parse df = Some rows ∧ ∀ r, r ∈ rows →
  let gp := λ sub, point_of (marks (cols r) sub) in
  (∀ sub, sub ∈ subject_cols → GP (cols r) !! sub = Some (gp sub)) ∧
  (∃ least, (∃ sub, sub ∈ subject_cols ∧ gp sub = least) ∧
            (∀ sub, sub ∈ subject_cols → least ≤ gp sub) ∧
            Result (cols r) = if decide (least < 4) then "FAIL"%string else "PASS"%string) ∧
  (Result (cols r) = "FAIL"%string ↔ ∃ sub, sub ∈ subject_cols ∧ gp sub = 0) ∧
  (Result (cols r) = "PASS"%string ↔ ∀ sub, sub ∈ subject_cols → 4 ≤ gp sub).
Proof.
  pose proof (process_eq parse df) as Hp.
  exists (row_of parse df <$> df). split; [exact Hp|].
  generalize dependent (row_of parse df <$> df). intros rows Hp.
  intros r Hr gp. destruct (process_rows _ _ _ _ Hp Hr) as [_ (s & _ & ->)].
  subst gp. rewrite row_of_marks, row_of_GP, row_of_Result.
  generalize (cleaned parse s). intros m.
  pose (gp := λ sub, point_of (m sub)).
  change (λ sub, point_of (m sub)) with gp.
  assert (Hgp : ∀ sub, point_of (m sub) = gp sub) by reflexivity.
  destruct (row_min_spec (gp <$> subject_cols)) as (least & Hmin & Hin & Hle);
    [discriminate|].
  apply list_elem_of_fmap in Hin as (sub0 & Hsub0 & Hin0).
  assert (Hle' : ∀ sub, sub ∈ subject_cols → least ≤ point_of (m sub)).
  { intros sub Hsub. rewrite Hgp. apply Hle, list_elem_of_fmap_2, Hsub. }
  rewrite <- Hgp in Hsub0.
  assert (Hres : pass_or_fail (row_min (gp <$> subject_cols))
                 = if decide (least < 4) then "FAIL"%string else "PASS"%string).
  { rewrite Hmin. cbn [pass_or_fail].
    destruct (decide (least < 4)) as [Hlt|Hge].
    - rewrite bool_decide_eq_false_2 by lia. reflexivity.
    - rewrite bool_decide_eq_true_2 by lia. reflexivity. }
  rewrite Hres. clear Hres Hmin Hle Hgp. clearbody gp.
  split; [|split; [|split]].
  - intros sub Hsub. rewrite apply_grades_GP, decide_True by exact Hsub. reflexivity.
  - exists least. split; [exists sub0; auto|]. split; [exact Hle'|reflexivity].
  - destruct (decide (least < 4)) as [Hlt|Hge]; split.
    + intros _. exists sub0. split; [exact Hin0|].
      destruct (point_of_values (m sub0)) as [H0|H4]; [exact H0|lia].
    + reflexivity.
    + discriminate.
    + intros (sub & Hsub & H0). specialize (Hle' sub Hsub). lia.
  - destruct (decide (least < 4)) as [Hlt|Hge]; split.
    + discriminate.
    + intros Hall. specialize (Hall sub0 Hin0). lia.
    + intros _ sub Hsub. specialize (Hle' sub Hsub). lia.
    + reflexivity.
Qed.

Lemma result_rule_witness :
  ∃ rows r,
    process no_text_number sample_df = Some rows ∧ r ∈ rows ∧
    (Result (cols r) = "FAIL"%string
     ↔ ∃ sub, sub ∈ subject_cols ∧ point_of (marks (cols r) sub) = 0).
Proof.
  destruct (result_rule no_text_number sample_df) as (rows & Hp & H).
  assert (Hr : row_of no_text_number sample_df (uniform "Zoya" 4 (Text "AB")) ∈ rows).
  { rewrite process_eq in Hp. injection Hp as <-.
    apply sample_row_in. right; right; left; reflexivity. }
  exists rows, (row_of no_text_number sample_df (uniform "Zoya" 4 (Text "AB"))).
  split; [exact Hp|]. split; [exact Hr|].
  exact (proj1 (proj2 (proj2 (H _ Hr)))).
Defined.

(** ** Ranks *)

(** The rank of a row counts the distinct SGPA values above its own. *)
Lemma rank_counts_greater parse (df : list student) (rows : list row) :
  process parse df = Some rows →
  (∀ r, r ∈ rows →
     Rank r = 1 + Z.of_nat (distinct_greater ((λ r, SGPA (cols r)) <$> rows)
                                               (SGPA (cols r)))) ∧
  rank_dense ((λ r, SGPA (cols r)) <$> rows) = Some (Rank <$> rows).
Proof.
  intros Hp.
  assert (Hrows : rows = row_of parse df <$> df).
  { rewrite process_eq in Hp. congruence. }
  assert (Hcol : (λ r, SGPA (cols r)) <$> rows = SGPA <$> (columns_of parse <$> df)).
  { rewrite Hrows. symmetry. apply SGPA_column. }
  assert (Hrank : ∀ r, r ∈ rows →
            Rank r = 1 + Z.of_nat (distinct_greater ((λ r, SGPA (cols r)) <$> rows)
                                                      (SGPA (cols r)))).
  { intros r Hr. rewrite Hcol. rewrite Hrows in Hr.
    apply list_elem_of_fmap in Hr as (s & -> & _). reflexivity. }
  split; [exact Hrank|].
  rewrite rank_dense_eq. f_equal.
  rewrite <- list_fmap_compose. apply list_fmap_ext.
  intros i r Hi. cbn. symmetry. apply Hrank. eapply list_elem_of_lookup_2, Hi.
Qed.

(** C4: processing a sheet succeeds and the processed frame has one row for
    every student of the sheet, in the same order, with the Roll No, the
    Name and the cleaned marks of that student.  The Rank column is the
    dense rank of the SGPA column, computed from that column alone: for
    every student of the sheet, the rank is one more than the number of
    distinct SGPA values of the cohort strictly above the student's own;
    equal SGPAs have equal ranks, a greatest SGPA has rank 1, and the next
    lower SGPA value has the next integer. *)
Theorem rank_is_dense parse (df : list student) :
  ∃ rows, process parse df = Some rows ∧
  length rows = length df ∧
  let col := (λ r, SGPA (cols r)) <$> rows in
  (∀ i s, df !! i = Some s →
     ∃ r, rows !! i = Some r ∧
          RollNo (cols r) = raw_RollNo s ∧ Name (cols r) = raw_Name s ∧
          marks (cols r) = cleaned parse s ∧
          col !! i = Some (SGPA (cols r)) ∧
          Rank r = 1 + Z.of_nat (distinct_greater col (SGPA (cols r)))) ∧
  rank_dense col = Some (Rank <$> rows) ∧
  (∀ r, r ∈ rows → Rank r = 1 + Z.of_nat (distinct_greater col (SGPA (cols r)))) ∧
  (∀ r1 r2, r1 ∈ rows → r2 ∈ rows →
     SGPA (cols r1) = SGPA (cols r2) → Rank r1 = Rank r2) ∧
  (∀ r, r ∈ rows →
     (∀ r', r' ∈ rows → (SGPA (cols r') ≤ SGPA (cols r))%Qc) → Rank r = 1) ∧
  (∀ r1 r2, r1 ∈ rows → r2 ∈ rows →
     (SGPA (cols r2) < SGPA (cols r1))%Qc →
     (∀ r3, r3 ∈ rows →
        ¬ (SGPA (cols r2) < SGPA (cols r3) ∧ SGPA (cols r3) < SGPA (cols r1))%Qc) →
     Rank r2 = Rank r1 + 1).
Proof.
  pose proof (process_eq parse df) as Hp.
  exists (row_of parse df <$> df). split; [exact Hp|].
  split; [apply length_fmap|].
  assert (Hidx : ∀ i s, df !! i = Some s →
            (row_of parse df <$> df) !! i = Some (row_of parse df s)).
  { intros i s Hi. rewrite list_lookup_fmap, Hi. reflexivity. }
  generalize dependent (row_of parse df <$> df). intros rows Hp Hidx.
  intros col.
  destruct (rank_counts_greater _ _ _ Hp) as [Hrank Hdense]. fold col in Hrank, Hdense.
  assert (Hin : ∀ r, r ∈ rows → SGPA (cols r) ∈ col).
  { intros r Hr. subst col. apply (list_elem_of_fmap_2 (λ r, SGPA (cols r))), Hr. }
  split; [|split; [exact Hdense|split; [exact Hrank|split; [|split]]]].
  - intros i s Hi. exists (row_of parse df s).
    pose proof (Hidx i s Hi) as Hr.
    split; [exact Hr|]. split; [reflexivity|]. split; [reflexivity|].
    split; [apply row_of_marks|]. split.
    + subst col. rewrite list_lookup_fmap, Hr. reflexivity.
    + apply Hrank. eapply list_elem_of_lookup_2, Hr.
  - intros r1 r2 H1 H2 Heq. rewrite (Hrank r1 H1), (Hrank r2 H2), Heq. reflexivity.
  - intros r Hr Hmax. rewrite (Hrank r Hr), distinct_greater_top; [reflexivity|].
    intros z Hz. subst col. apply list_elem_of_fmap in Hz as (r' & -> & Hr').
    apply Hmax, Hr'.
  - intros r1 r2 H1 H2 Hlt Hgap. rewrite (Hrank r1 H1), (Hrank r2 H2).
    rewrite (distinct_greater_next col (SGPA (cols r1)) (SGPA (cols r2)));
      [lia|apply Hin, H1|exact Hlt|].
    intros z Hz. subst col. apply list_elem_of_fmap in Hz as (r3 & -> & Hr3).
    destruct (Qclt_le_dec (SGPA (cols r3)) (SGPA (cols r1))) as [Ha|Ha]; [|left; exact Ha].
    destruct (Qclt_le_dec (SGPA (cols r2)) (SGPA (cols r3))) as [Hb|Hb]; [|right; exact Hb].
    destruct (Hgap r3 Hr3). split; assumption.
Qed.

(** In the sample frame Asha, the second row, has the greatest SGPA and rank
    1; the two Ravi share rank 2 and the absentee Zoya has rank 3. *)
Lemma rank_is_dense_witness :
  ∃ rows asha ravi zoya ravi',
    process no_text_number sample_df = Some rows ∧
    rows = [ravi; asha; zoya; ravi'] ∧
    Name (cols asha) = "Asha"%string ∧
    Rank asha = 1 + Z.of_nat (distinct_greater ((λ r, SGPA (cols r)) <$> rows)
                                                 (SGPA (cols asha))) ∧
    Rank asha = 1 ∧ Rank ravi = 2 ∧ Rank ravi' = 2 ∧ Rank zoya = 3.
Proof.
  destruct (rank_is_dense no_text_number sample_df) as (rows & Hp & _ & Hidx & _).
  destruct (Hidx 1%nat (uniform "Asha" 1 (Num (Qc_of_Z 95))) eq_refl)
    as (asha & Hasha & _ & Hname & _ & _ & Hrank).
  assert (Hrows : rows = row_of no_text_number sample_df <$> sample_df).
  { rewrite process_eq in Hp. injection Hp as <-. reflexivity. }
  exists rows, asha,
    (row_of no_text_number sample_df (uniform "Ravi" 2 (Num (Qc_of_Z 60)))),
    (row_of no_text_number sample_df (uniform "Zoya" 4 (Text "AB"))),
    (row_of no_text_number sample_df (uniform "Ravi" 3 (Num (Qc_of_Z 60)))).
  assert (Ha : asha = row_of no_text_number sample_df (uniform "Asha" 1 (Num (Qc_of_Z 95)))).
  { rewrite Hrows in Hasha. cbn in Hasha. congruence. }
  split; [exact Hp|]. split; [rewrite Hrows, Ha; reflexivity|].
  split; [exact Hname|]. split; [exact Hrank|].
  rewrite Ha. repeat split; vm_compute; reflexivity.
Defined.

(** ** Each row on its own *)

Lemma Zsum_ext (f g : Z → Z) (l : list Z) :
  (∀ x, x ∈ l → f x = g x) → Zsum (f <$> l) = Zsum (g <$> l).
Proof.
  induction l as [|x l IH]; intros H; cbn; [reflexivity|].
  fold (Zsum (f <$> l)). fold (Zsum (g <$> l)).
  rewrite (H x), IH by set_solver. reflexivity.
Qed.

Lemma fmap_ext_in (f g : Z → Z) (l : list Z) :
  (∀ x, x ∈ l → f x = g x) → f <$> l = g <$> l.
Proof.
  intros H. apply list_fmap_ext. intros i x Hi. apply H.
  eapply list_elem_of_lookup_2, Hi.
Qed.

(** Two rows of the sheet with the same cells under the eleven subjects get
    the same grades, grade points, SGPA, CGPA and result. *)
Lemma columns_of_agree parse (s1 s2 : student) :
  (∀ sub, sub ∈ subject_cols → raw_marks s1 sub = raw_marks s2 sub) →
  Grade (columns_of parse s1) = Grade (columns_of parse s2) ∧
  GP (columns_of parse s1) = GP (columns_of parse s2) ∧
  SGPA (columns_of parse s1) = SGPA (columns_of parse s2) ∧
  CGPA (columns_of parse s1) = CGPA (columns_of parse s2) ∧
  Result (columns_of parse s1) = Result (columns_of parse s2).
Proof.
  intros Hraw.
  assert (Hm : ∀ sub, sub ∈ subject_cols → cleaned parse s1 sub = cleaned parse s2 sub).
  { intros sub Hsub. unfold cleaned. rewrite (Hraw sub Hsub). reflexivity. }
  assert (Hw : weighted_points (cleaned parse s1) = weighted_points (cleaned parse s2)).
  { unfold weighted_points. apply Zsum_ext. intros sub Hsub.
    rewrite (Hm sub Hsub). reflexivity. }
  unfold columns_of. cbn [Grade GP SGPA CGPA Result].
  split; [|split; [|split; [|split]]].
  - apply map_eq. intros sub. rewrite !apply_grades_Grade.
    destruct (decide (sub ∈ subject_cols)) as [Hsub|]; [|reflexivity].
    rewrite (Hm sub Hsub). reflexivity.
  - apply map_eq. intros sub. rewrite !apply_grades_GP.
    destruct (decide (sub ∈ subject_cols)) as [Hsub|]; [|reflexivity].
    rewrite (Hm sub Hsub). reflexivity.
  - rewrite Hw. reflexivity.
  - rewrite Hw. reflexivity.
  - f_equal. f_equal. apply fmap_ext_in. intros sub Hsub.
    rewrite (Hm sub Hsub). reflexivity.
Qed.

(** C10: the grades, grade points, SGPA, CGPA and result of a row depend on
    the marks of that row only: when row [i] has the same cells under the
    eleven subjects in two sheets, both sheets are processed and these
    columns of row [i] are the same in the two processed frames, whatever
    the other rows hold.  The rank is not such a column: adding a better
    student changes it. *)
Theorem rowwise_noninterference :
  (∀ parse (df1 df2 : list student) (i : nat) (s1 s2 : student),
     df1 !! i = Some s1 → df2 !! i = Some s2 →
     (∀ sub, sub ∈ subject_cols → raw_marks s1 sub = raw_marks s2 sub) →
     ∃ rows1 rows2 r1 r2,
       process parse df1 = Some rows1 ∧ process parse df2 = Some rows2 ∧
       rows1 !! i = Some r1 ∧ rows2 !! i = Some r2 ∧
       Grade (cols r1) = Grade (cols r2) ∧ GP (cols r1) = GP (cols r2) ∧
       SGPA (cols r1) = SGPA (cols r2) ∧ CGPA (cols r1) = CGPA (cols r2) ∧
       Result (cols r1) = Result (cols r2)) ∧
  (∃ (df1 df2 : list student) (rows1 rows2 : list row) (s : student) (r1 r2 : row),
     process no_text_number df1 = Some rows1 ∧
     process no_text_number df2 = Some rows2 ∧
     df1 !! 0%nat = Some s ∧ df2 !! 0%nat = Some s ∧
     rows1 !! 0%nat = Some r1 ∧ rows2 !! 0%nat = Some r2 ∧
     Rank r1 = 1 ∧ Rank r2 = 2).
Proof.
  split.
  - intros parse df1 df2 i s1 s2 H1 H2 Hraw.
    exists (row_of parse df1 <$> df1), (row_of parse df2 <$> df2).
    exists (row_of parse df1 s1), (row_of parse df2 s2).
    split; [apply process_eq|]. split; [apply process_eq|].
    rewrite !list_lookup_fmap, H1, H2. cbn [fmap option_fmap option_map].
    split; [reflexivity|]. split; [reflexivity|].
    unfold row_of. cbn [cols]. apply columns_of_agree, Hraw.
  - set (s := uniform "Ravi" 2 (Num (Qc_of_Z 60))).
    set (t := uniform "Asha" 1 (Num (Qc_of_Z 95))).
    exists [s], [s; t], (row_of no_text_number [s] <$> [s]),
      (row_of no_text_number [s; t] <$> [s; t]), s,
      (row_of no_text_number [s] s), (row_of no_text_number [s; t] s).
    split; [apply process_eq|]. split; [apply process_eq|].
    repeat (split; [reflexivity|]).
    split; vm_compute; reflexivity.
Qed.

Lemma rowwise_noninterference_witness :
  ∃ rows1 rows2 r1 r2,
    process no_text_number sample_df = Some rows1 ∧
    process no_text_number [uniform "Ravi" 7 (Num (Qc_of_Z 60))] = Some rows2 ∧
    rows1 !! 0%nat = Some r1 ∧ rows2 !! 0%nat = Some r2 ∧
    Grade (cols r1) = Grade (cols r2) ∧ GP (cols r1) = GP (cols r2) ∧
    SGPA (cols r1) = SGPA (cols r2) ∧ CGPA (cols r1) = CGPA (cols r2) ∧
    Result (cols r1) = Result (cols r2).
Proof.
  exact (proj1 rowwise_noninterference no_text_number
           sample_df [uniform "Ravi" 7 (Num (Qc_of_Z 60))] 0%nat
           (uniform "Ravi" 2 (Num (Qc_of_Z 60)))
           (uniform "Ravi" 7 (Num (Qc_of_Z 60)))
           eq_refl eq_refl (λ sub _, eq_refl)).
Defined.

(** ** The overall topper list *)

Lemma string_leb_refl (s : string) : String.leb s s = true.
Proof. destruct (String.leb_total s s) as [H|H]; exact H. Qed.

Lemma ascii_compare_refl (a : Ascii.ascii) : Ascii.compare a a = Eq.
Proof. unfold Ascii.compare. apply N.compare_refl. Qed.

Lemma ascii_compare_lt_trans (a b c : Ascii.ascii) :
  Ascii.compare a b = Lt → Ascii.compare b c = Lt → Ascii.compare a c = Lt.
Proof.
  unfold Ascii.compare. rewrite !N.compare_lt_iff. apply N.lt_trans.
Qed.

Lemma string_leb_trans (s1 s2 s3 : string) :
  String.leb s1 s2 = true → String.leb s2 s3 = true → String.leb s1 s3 = true.
Proof.
  unfold String.leb. revert s2 s3.
  induction s1 as [|c1 s1 IH]; intros [|c2 s2] [|c3 s3]; cbn; try congruence.
  destruct (Ascii.compare c1 c2) eqn:E12; try congruence;
    destruct (Ascii.compare c2 c3) eqn:E23; try congruence.
  - apply Ascii.compare_eq_iff in E12, E23. subst.
    rewrite ascii_compare_refl. apply IH.
  - apply Ascii.compare_eq_iff in E12. subst. rewrite E23. reflexivity.
  - apply Ascii.compare_eq_iff in E23. subst. rewrite E12. reflexivity.
  - rewrite (ascii_compare_lt_trans _ _ _ E12 E23). reflexivity.
Qed.

Lemma topper_le_total (a b : row) : topper_le a b = true ∨ topper_le b a = true.
Proof.
  unfold topper_le.
  destruct (Qclt_le_dec (SGPA (cols b)) (SGPA (cols a))) as [H|H].
  { left. rewrite bool_decide_eq_true_2 by exact H. reflexivity. }
  destruct (Qcle_lt_or_eq _ _ H) as [H'|H'].
  { right. rewrite bool_decide_eq_true_2 by exact H'. reflexivity. }
  rewrite !(bool_decide_eq_true_2 (_ = _)) by congruence. cbn [andb].
  destruct (String.leb_total (Name (cols a)) (Name (cols b))) as [->| ->];
    [left|right]; apply orb_true_r.
Qed.

Lemma topper_le_inv (a b : row) :
  topper_le a b = true ↔
  (SGPA (cols b) < SGPA (cols a))%Qc
  ∨ (SGPA (cols a) = SGPA (cols b) ∧ String.leb (Name (cols a)) (Name (cols b)) = true).
Proof.
  unfold topper_le.
  rewrite orb_true_iff, andb_true_iff, !bool_decide_eq_true. reflexivity.
Qed.

Lemma topper_le_trans (a b c : row) :
  topper_le a b = true → topper_le b c = true → topper_le a c = true.
Proof.
  rewrite !topper_le_inv. intros [H1|[H1 N1]] [H2|[H2 N2]].
  - left. exact (Qclt_trans _ _ _ H2 H1).
  - left. rewrite <- H2. exact H1.
  - left. rewrite H1. exact H2.
  - right. split; [congruence|]. exact (string_leb_trans _ _ _ N1 N2).
Qed.

(** Two rows which the order puts either way round have the same keys. *)
Lemma topper_le_antisym (a b : row) :
  topper_le a b = true → topper_le b a = true → topper_key a = topper_key b.
Proof.
  rewrite !topper_le_inv. unfold topper_key. intros [H1|[H1 N1]] [H2|[H2 N2]].
  - destruct (Qclt_not_le _ _ H1). apply Qclt_le_weak, H2.
  - rewrite H2 in H1. destruct (Qclt_not_eq _ _ H1 eq_refl).
  - rewrite H1 in H2. destruct (Qclt_not_eq _ _ H2 eq_refl).
  - f_equal; [exact H1|]. apply String.leb_antisym; assumption.
Qed.

Lemma topper_le_same_key (a b : row) :
  topper_key a = topper_key b → topper_le a b = true.
Proof.
  unfold topper_key. intros [= H1 H2]. apply topper_le_inv. right.
  split; [exact H1|]. rewrite H2. apply string_leb_refl.
Qed.

Section Stability.
Context {A : Type} (le : A → A → bool) (same : A → bool).

(** Insertion is stable: among the rows that pass a test [same] which only
    rows tied with [x] can pass, [x] stays in front. *)
Lemma insert_by_filter (x : A) (l : list A) :
  (∀ y, y ∈ l → same y = true → le x y = true) →
  List.filter same (insert_by le x l) = List.filter same (x :: l).
Proof.
  induction l as [|y l IH]; intros Hl; cbn [insert_by]; [reflexivity|].
  destruct (le x y) eqn:E; [reflexivity|].
  assert (Hy : same y = false).
  { destruct (same y) eqn:Ey; [|reflexivity].
    rewrite (Hl y) in E; [discriminate|apply list_elem_of_here|exact Ey]. }
  assert (IH' : List.filter same (insert_by le x l) = List.filter same (x :: l)).
  { apply IH. intros z Hz. apply Hl, list_elem_of_further, Hz. }
  cbn [List.filter] in *. rewrite Hy, IH'. reflexivity.
Qed.

Lemma insert_by_filter_out (x : A) (l : list A) :
  same x = false → List.filter same (insert_by le x l) = List.filter same l.
Proof.
  intros Hx. induction l as [|y l IH]; cbn [insert_by List.filter].
  - rewrite Hx. reflexivity.
  - destruct (le x y); cbn [List.filter]; [rewrite Hx; reflexivity|].
    rewrite IH. reflexivity.
Qed.

(** Rows that tie with one another keep the order they had. *)
Lemma sort_by_stable (l : list A) :
  (∀ a b, same a = true → same b = true → le a b = true) →
  List.filter same (sort_by le l) = List.filter same l.
Proof.
  intros Htie. induction l as [|x l IH]; [reflexivity|].
  cbn [sort_by foldr]. fold (sort_by le l).
  destruct (same x) eqn:Hx.
  - rewrite insert_by_filter by (intros y _ Hy; apply Htie; assumption).
    cbn [List.filter]. rewrite Hx, IH. reflexivity.
  - rewrite insert_by_filter_out by exact Hx.
    cbn [List.filter]. rewrite Hx, IH. reflexivity.
Qed.

End Stability.

Lemma topper_df_rows (rows : list row) : (topper_df rows).*2 = sort_by topper_le rows.
Proof.
  unfold topper_df. rewrite fmap_imap.
  rewrite (imap_ext _ (const id)) by reflexivity.
  rewrite imap_const. apply list_fmap_id.
Qed.

Lemma topper_df_ranks (rows : list row) :
  (topper_df rows).*1 = seqZ 1 (Z.of_nat (length rows)).
Proof.
  unfold topper_df. rewrite fmap_imap.
  rewrite (imap_ext _ (λ i _, Z.of_nat i + 1)) by reflexivity.
  rewrite imap_seq_0, sort_by_length. unfold seqZ. rewrite Nat2Z.id. reflexivity.
Qed.

Lemma strongly_sorted_lookup {A} (R : A → A → Prop) (l : list A) (i j : nat) (a b : A) :
  StronglySorted R l → (i < j)%nat → l !! i = Some a → l !! j = Some b → R a b.
Proof.
  intros Hs. revert i j. induction Hs as [|x l Hs IH Hx]; intros i j Hij Hi Hj.
  - rewrite lookup_nil in Hi. discriminate.
  - destruct j as [|j]; [lia|]. cbn in Hj. destruct i as [|i]; cbn in Hi.
    + injection Hi as ->. rewrite Forall_forall in Hx.
      apply Hx. eapply list_elem_of_lookup_2, Hj.
    + apply (IH i j); [lia|assumption..].
Qed.

(** C6, as the script has it: processing a sheet succeeds; the overall
    topper list is the processed frame sorted by SGPA descending, then Name
    ascending, and its Overall Rank column is exactly 1, 2, ..., N, with no
    two rows sharing a rank.  The order of the two keys is total but not
    strict: a row stands strictly before a later one when their keys
    differ, and rows with the same SGPA and the same name keep the order
    they had in the frame.  The positional rank is not the dense one: rows
    with equal SGPA share their Rank and never their Overall Rank. *)
Theorem topper_df_positional parse (df : list student) :
  ∃ rows, process parse df = Some rows ∧
  let board := topper_df rows in
  board.*2 ≡ₚ rows ∧
  StronglySorted (λ a b, topper_le a b = true) board.*2 ∧
  board.*1 = seqZ 1 (Z.of_nat (length rows)) ∧
  NoDup board.*1 ∧
  (∀ i j a b, (i < j)%nat → board.*2 !! i = Some a → board.*2 !! j = Some b →
     topper_le a b = true ∧ (topper_key a ≠ topper_key b → topper_le b a = false)) ∧
  (∀ k, List.filter (tied k) board.*2 = List.filter (tied k) rows) ∧
  (∀ p q, p ∈ board → q ∈ board →
     SGPA (cols p.2) = SGPA (cols q.2) → Rank p.2 = Rank q.2).
Proof.
  pose proof (process_eq parse df) as Hp.
  exists (row_of parse df <$> df). split; [exact Hp|].
  generalize dependent (row_of parse df <$> df). intros rows Hp.
  intros board. subst board.
  rewrite topper_df_rows, topper_df_ranks.
  pose proof (sort_by_sorted topper_le topper_le_total topper_le_trans rows) as Hs.
  split; [apply sort_by_perm|]. split; [exact Hs|]. split; [reflexivity|].
  split; [apply NoDup_seqZ|]. split; [|split].
  - intros i j a b Hij Hi Hj.
    pose proof (strongly_sorted_lookup _ _ _ _ _ _ Hs Hij Hi Hj) as Hab.
    split; [exact Hab|]. intros Hne.
    destruct (topper_le b a) eqn:Hba; [|reflexivity].
    destruct Hne. apply topper_le_antisym; assumption.
  - intros k. apply sort_by_stable. intros a b Ha Hb.
    unfold tied in Ha, Hb. apply bool_decide_eq_true in Ha, Hb.
    apply topper_le_same_key. congruence.
  - intros p q Hpin Hqin Heq.
    assert (Hin : ∀ x, x ∈ topper_df rows → x.2 ∈ rows).
    { intros x Hx. apply (list_elem_of_fmap_2 snd) in Hx.
      rewrite topper_df_rows in Hx. apply sort_by_elem_of in Hx. exact Hx. }
    destruct (rank_counts_greater _ _ _ Hp) as [Hrank _].
    rewrite (Hrank _ (Hin p Hpin)), (Hrank _ (Hin q Hqin)), Heq. reflexivity.
Qed.

Lemma topper_df_positional_witness :
  ∃ rows,
    process no_text_number sample_df = Some rows ∧
    (topper_df rows).*1 = seqZ 1 (Z.of_nat (length rows)) ∧
    NoDup (topper_df rows).*1.
Proof.
  destruct (topper_df_positional no_text_number sample_df) as (rows & Hp & H).
  exists rows. split; [exact Hp|].
  split; [exact (proj1 (proj2 (proj2 H)))|exact (proj1 (proj2 (proj2 (proj2 H))))].
Defined.

(** C6 as the specification words it fails: the name does not break every
    tie.  In the sample frame the students with roll numbers 2 and 3 have
    the same name and the same SGPA; they stand at the second and third
    place of the topper list, and the order of the keys puts neither
    strictly before the other. *)
Lemma topper_tie_not_strict :
  ∃ rows a b,
    process no_text_number sample_df = Some rows ∧
    (topper_df rows).*2 !! 1%nat = Some a ∧
    (topper_df rows).*2 !! 2%nat = Some b ∧
    RollNo (cols a) = 2 ∧ RollNo (cols b) = 3 ∧
    topper_key a = topper_key b ∧
    topper_le a b = true ∧ topper_le b a = true.
Proof.
  exists (row_of no_text_number sample_df <$> sample_df).
  exists (row_of no_text_number sample_df (uniform "Ravi" 2 (Num (Qc_of_Z 60)))).
  exists (row_of no_text_number sample_df (uniform "Ravi" 3 (Num (Qc_of_Z 60)))).
  split; [apply process_eq|].
  rewrite topper_df_rows.
  split; [vm_compute; reflexivity|]. split; [vm_compute; reflexivity|].
  split; [reflexivity|]. split; [reflexivity|].
  split; [vm_compute; reflexivity|].
  split; vm_compute; reflexivity.
Qed.

(** ** Worked examples *)

(** 90 in subject 101 (4 credits, grade point 10) and exactly 40 in every
    other subject (20 credits, grade point 4): the sum of credit times
    grade point is 4 * 10 + 20 * 4 = 120, the SGPA is 120 / 24 = 5, and the
    result is PASS. *)
Example one_O_rest_P_scored :
  ∃ sc, score no_text_number one_O_rest_P = Some sc ∧
        weighted_points (marks sc) = 120 ∧
        SGPA sc = Qc_of_Z 5 ∧ CGPA sc = SGPA sc ∧
        Result sc = "PASS"%string.
Proof.
  exists (columns_of no_text_number one_O_rest_P).
  split; [apply score_eq|].
  split; [vm_compute; reflexivity|].
  split; [apply Qc_is_canon; vm_compute; reflexivity|].
  split; vm_compute; reflexivity.
Qed.

(** An absence marker under every subject: grade point 0, result FAIL. *)
Example absent_fails :
  ∃ sc, score no_text_number (uniform "Zoya" 4 (Text "AB")) = Some sc ∧
        SGPA sc = Qc_of_Z 0 ∧ Result sc = "FAIL"%string.
Proof.
  exists (columns_of no_text_number (uniform "Zoya" 4 (Text "AB"))).
  split; [apply score_eq|].
  split; [apply Qc_is_canon; vm_compute; reflexivity|vm_compute; reflexivity].
Qed.

(** The exact ties of the rounding go to the even hundredth. *)
Example round_ties_to_even :
  round (Q2Qc (1 # 8)) 2 = Q2Qc (12 # 100) ∧
  round (Q2Qc (3 # 8)) 2 = Q2Qc (38 # 100).
Proof. split; apply Qc_is_canon; vm_compute; reflexivity. Qed.

(** * Further properties of the script *)

(** ** [calculate_sgpa] and the pass/fail rule on any row *)

Lemma sgpa_loop_None (P : gmap Z Z) (l : list Z) : foldl (sgpa_step P) None l = None.
Proof. induction l as [|x l IH]; [reflexivity|]. cbn [foldl]. exact IH. Qed.

Lemma sgpa_loop_missing (P : gmap Z Z) (l : list Z) (acc : option (Z * Z)) (sub : Z) :
  sub ∈ l → P !! sub = None → foldl (sgpa_step P) acc l = None.
Proof.
  revert acc. induction l as [|x l IH]; intros acc Hin Hsub.
  - apply elem_of_nil in Hin. destruct Hin.
  - cbn [foldl]. destruct (decide (x = sub)) as [->|Hne].
    + assert (Hstep : sgpa_step P acc sub = None).
      { unfold sgpa_step. destruct acc as [[t c]|]; [|reflexivity].
        cbn [mbind option_bind]. destruct (CREDITS !! sub); [|reflexivity].
        cbn [mbind option_bind]. rewrite Hsub. reflexivity. }
      rewrite Hstep. apply sgpa_loop_None.
    + apply IH; [|exact Hsub].
      apply elem_of_cons in Hin as [Heq|Hin]; [congruence|exact Hin].
Qed.

(** The sum of credit times grade point of grade points between 0 and 10
    lies between 0 and 240. *)
Lemma weighted_sum_range (gp : Z → Z) :
  (∀ sub, sub ∈ subject_cols → 0 ≤ gp sub ≤ 10) →
  0 ≤ Zsum ((λ sub, credit sub * gp sub) <$> subject_cols) ≤ 240.
Proof.
  intros Hall. apply subject_cols_forall in Hall.
  destruct Hall as (H1 & H2 & H3 & H4 & H5 & H6 & H7 & H8 & H9 & H10 & H11).
  change (Zsum ((λ sub, credit sub * gp sub) <$> subject_cols))
    with (4 * gp 101 + (3 * gp 103 + (3 * gp 105 + (3 * gp 107 + (3 * gp 109
          + (1 * gp 161 + (1 * gp 163 + (1 * gp 165 + (1 * gp 167
          + (3 * gp 169 + (1 * gp 171 + 0))))))))))).
  lia.
Qed.

(** X1: on a row whose GP columns hold grade points between 0 and 10,
    [calculate_sgpa] fails (a KeyError) exactly when the row lacks the GP
    column of one of the eleven subjects; otherwise it returns the rounded
    quotient by 24 of the sum of credit times the value of the GP column,
    a sum between 0 and 240, also for grade points that no grade has (1, 2
    and 3); columns of other keys are not read. *)
Theorem calculate_sgpa_columns (row_GP : gmap Z Z) :
  (∀ sub v, sub ∈ subject_cols → row_GP !! sub = Some v → 0 ≤ v ≤ 10) →
  (calculate_sgpa row_GP = None
   ↔ ∃ sub, sub ∈ subject_cols ∧ row_GP !! sub = None) ∧
  (∀ gp : Z → Z,
     (∀ sub, sub ∈ subject_cols → row_GP !! sub = Some (gp sub)) →
     0 ≤ Zsum ((λ sub, credit sub * gp sub) <$> subject_cols) ≤ 240 ∧
     calculate_sgpa row_GP
     = Some (sgpa_of_points (Zsum ((λ sub, credit sub * gp sub) <$> subject_cols)))) ∧
  (∀ other : gmap Z Z,
     (∀ sub, sub ∈ subject_cols → other !! sub = row_GP !! sub) →
     calculate_sgpa other = calculate_sgpa row_GP).
Proof.
  intros Hrange.
  assert (Hsome : ∀ (P : gmap Z Z) (gp : Z → Z),
            (∀ sub, sub ∈ subject_cols → P !! sub = Some (gp sub)) →
            calculate_sgpa P
            = Some (sgpa_of_points (Zsum ((λ sub, credit sub * gp sub) <$> subject_cols)))).
  { intros P gp Hall. unfold calculate_sgpa.
    rewrite (sgpa_loop P gp).
    - fold total_credit_sum. rewrite total_credit_sum_24, !Z.add_0_l.
      cbn [mbind option_bind]. unfold truediv.
      rewrite decide_False by lia. reflexivity.
    - intros sub Hsub. split; [apply CREDITS_subject, Hsub|apply Hall, Hsub]. }
  assert (Hnone : ∀ (P : gmap Z Z) sub,
            sub ∈ subject_cols → P !! sub = None → calculate_sgpa P = None).
  { intros P sub Hin Hsub. unfold calculate_sgpa.
    rewrite (sgpa_loop_missing P _ _ sub Hin Hsub). reflexivity. }
  assert (Hdec : ∀ P : gmap Z Z,
            (∀ sub, sub ∈ subject_cols → P !! sub = Some (default 0 (P !! sub)))
            ∨ (∃ sub, sub ∈ subject_cols ∧ P !! sub = None)).
  { intros P.
    destruct (decide (Forall (λ sub, is_Some (P !! sub)) subject_cols)) as [Hall|Hex].
    - left. intros sub Hsub. rewrite Forall_forall in Hall.
      destruct (Hall sub Hsub) as [v Hv]. rewrite Hv. reflexivity.
    - right. apply not_Forall_Exists in Hex; [|apply _].
      apply Exists_exists in Hex as (sub & Hsub & Hno). exists sub. split; [exact Hsub|].
      destruct (P !! sub) eqn:E; [|reflexivity]. destruct Hno. eauto. }
  split; [|split].
  - split.
    + intros Hn. destruct (Hdec row_GP) as [Hall|Hex]; [|exact Hex].
      rewrite (Hsome _ _ Hall) in Hn. discriminate.
    + intros (sub & Hin & Hsub). exact (Hnone _ _ Hin Hsub).
  - intros gp Hall. split; [|exact (Hsome _ _ Hall)].
    apply weighted_sum_range. intros sub Hsub.
    apply (Hrange sub (gp sub) Hsub), Hall, Hsub.
  - intros other Hagree. destruct (Hdec row_GP) as [Hall|(sub & Hin & Hsub)].
    + rewrite (Hsome _ _ Hall). apply Hsome.
      intros sub Hsub. rewrite (Hagree sub Hsub). apply Hall, Hsub.
    + rewrite (Hnone _ _ Hin Hsub). apply (Hnone _ sub Hin).
      rewrite (Hagree sub Hin). exact Hsub.
Qed.

Lemma mapM_lookup_missing (P : gmap Z Z) (l : list Z) (sub : Z) :
  sub ∈ l → P !! sub = None → mapM (λ s, P !! s) l = None.
Proof.
  intros Hin Hsub. destruct (mapM (λ s, P !! s) l) as [k|] eqn:E; [|reflexivity].
  apply mapM_Some in E. exfalso.
  apply list_elem_of_lookup in Hin as [i Hi].
  destruct (Forall2_lookup_l _ _ _ _ _ E Hi) as (y & _ & Hy). congruence.
Qed.

(** X2: the pass/fail rule fails (a KeyError) exactly when the row lacks the
    GP column of one of the eleven subjects; otherwise the result is FAIL
    exactly when one of the eleven columns holds a value below 4, whatever
    integers the columns hold, and PASS in every other case. *)
Theorem result_of_columns (row_GP : gmap Z Z) :
  (result_of row_GP = None
   ↔ ∃ sub, sub ∈ subject_cols ∧ row_GP !! sub = None) ∧
  (∀ gp : Z → Z,
     (∀ sub, sub ∈ subject_cols → row_GP !! sub = Some (gp sub)) →
     (result_of row_GP = Some "FAIL"%string
      ↔ ∃ sub, sub ∈ subject_cols ∧ gp sub < 4) ∧
     (result_of row_GP = Some "PASS"%string
      ↔ ∀ sub, sub ∈ subject_cols → 4 ≤ gp sub)).
Proof.
  assert (Hsome : ∀ gp : Z → Z,
            (∀ sub, sub ∈ subject_cols → row_GP !! sub = Some (gp sub)) →
            ∃ least, result_of row_GP
                     = Some (if decide (least < 4) then "FAIL"%string else "PASS"%string) ∧
                     (∃ sub, sub ∈ subject_cols ∧ gp sub = least) ∧
                     (∀ sub, sub ∈ subject_cols → least ≤ gp sub)).
  { intros gp Hall. unfold result_of.
    rewrite (mapM_lookup_cols _ gp _ Hall). cbn [mbind option_bind].
    destruct (row_min_spec (gp <$> subject_cols)) as (least & Hmin & Hin & Hle);
      [discriminate|].
    exists least. rewrite Hmin. cbn [pass_or_fail]. split; [|split].
    - destruct (decide (least < 4)).
      + rewrite bool_decide_eq_false_2 by lia. reflexivity.
      + rewrite bool_decide_eq_true_2 by lia. reflexivity.
    - apply list_elem_of_fmap in Hin as (sub & -> & Hsub). eauto.
    - intros sub Hsub. apply Hle, list_elem_of_fmap_2, Hsub. }
  split.
  - split.
    + intros Hn.
      destruct (decide (Forall (λ sub, is_Some (row_GP !! sub)) subject_cols)) as [Hall|Hex].
      * exfalso. rewrite Forall_forall in Hall.
        destruct (Hsome (λ sub, default 0 (row_GP !! sub))) as (least & Hres & _).
        { intros sub Hsub. destruct (Hall sub Hsub) as [v Hv]. rewrite Hv. reflexivity. }
        congruence.
      * apply not_Forall_Exists in Hex; [|apply _].
        apply Exists_exists in Hex as (sub & Hsub & Hno). exists sub. split; [exact Hsub|].
        destruct (row_GP !! sub) eqn:E; [|reflexivity]. destruct Hno. eauto.
    + intros (sub & Hin & Hsub). unfold result_of.
      rewrite (mapM_lookup_missing _ _ _ Hin Hsub). reflexivity.
  - intros gp Hall. destruct (Hsome gp Hall) as (least & Hres & (sub0 & Hsub0 & Heq) & Hle).
    rewrite Hres. destruct (decide (least < 4)) as [Hlt|Hge]; split; split.
    + intros _. exists sub0. split; [exact Hsub0|lia].
    + reflexivity.
    + discriminate.
    + intros Hall4. specialize (Hall4 sub0 Hsub0). lia.
    + discriminate.
    + intros (sub & Hsub & Hlt). specialize (Hle sub Hsub). lia.
    + intros _ sub Hsub. specialize (Hle sub Hsub). lia.
    + reflexivity.
Qed.

(** ** The SGPA as a function of the weighted sum *)

(** The hundredths of the SGPA that goes with a sum [n]. *)
Definition hundredths (n : Z) : Z :=
  round_half_even (Q2Qc (inject_Z n / inject_Z 24) * inject_Z (10 ^ 2)).

(** Checked by computation for each of the 241 sums: the SGPA is a number
    of hundredths between 0 and 1000, within half a hundredth of n/24, and
    strictly below the SGPA of the next sum. *)
Definition sgpa_checks (n : Z) : bool :=
  (0 <=? hundredths n) && (hundredths n <=? 1000)
  && bool_decide (sgpa_of_points n = Q2Qc (hundredths n # 100))
  && Qle_bool (Qabs (sgpa_of_points n - inject_Z n / inject_Z 24)) (1 # 200)
  && (bool_decide (n = 240)
      || bool_decide (sgpa_of_points n < sgpa_of_points (n + 1))%Qc).

Lemma sgpa_checks_all (n : Z) : 0 ≤ n ≤ 240 → sgpa_checks n = true.
Proof.
  intros Hn.
  assert (Hall : forallb sgpa_checks (seqZ 0 241) = true) by (vm_compute; reflexivity).
  rewrite forallb_forall in Hall. apply Hall.
  apply list_elem_of_In, elem_of_seqZ. lia.
Qed.

Lemma sgpa_of_points_hundredths (n : Z) :
  0 ≤ n ≤ 240 →
  0 ≤ hundredths n ≤ 1000 ∧ sgpa_of_points n = Q2Qc (hundredths n # 100) ∧
  (Qabs (sgpa_of_points n - inject_Z n / inject_Z 24) <= 1 # 200)%Q.
Proof.
  intros Hn. pose proof (sgpa_checks_all n Hn) as H. unfold sgpa_checks in H.
  apply andb_prop in H as [H _]. apply andb_prop in H as [H Herr].
  apply andb_prop in H as [H Heq]. apply andb_prop in H as [Hlo Hhi].
  apply Z.leb_le in Hlo, Hhi. apply bool_decide_eq_true in Heq.
  apply Qle_bool_iff in Herr. auto.
Qed.

Lemma sgpa_of_points_next (n : Z) :
  0 ≤ n < 240 → (sgpa_of_points n < sgpa_of_points (n + 1))%Qc.
Proof.
  intros Hn. assert (Hn' : 0 ≤ n ≤ 240) by lia.
  pose proof (sgpa_checks_all n Hn') as H. unfold sgpa_checks in H.
  apply andb_prop in H as [_ H]. apply orb_prop in H as [H|H].
  - apply bool_decide_eq_true in H. lia.
  - apply bool_decide_eq_true in H. exact H.
Qed.

(** The rounding keeps different sums apart. *)
Lemma sgpa_of_points_strict (n m : Z) :
  0 ≤ n → n < m → m ≤ 240 → (sgpa_of_points n < sgpa_of_points m)%Qc.
Proof.
  intros Hn Hnm Hm.
  assert (Hk : ∀ k : nat, n + 1 + Z.of_nat k ≤ 240 →
                 (sgpa_of_points n < sgpa_of_points (n + 1 + Z.of_nat k))%Qc).
  { induction k as [|k IH]; intros Hle.
    - rewrite Z.add_0_r. apply sgpa_of_points_next. lia.
    - eapply Qclt_trans; [apply IH; lia|].
      replace (n + 1 + Z.of_nat (S k)) with (n + 1 + Z.of_nat k + 1) by lia.
      apply sgpa_of_points_next. lia. }
  replace m with (n + 1 + Z.of_nat (Z.to_nat (m - n - 1))) by lia.
  apply Hk. lia.
Qed.

Lemma sgpa_of_points_lt_iff (n m : Z) :
  0 ≤ n ≤ 240 → 0 ≤ m ≤ 240 →
  ((sgpa_of_points n < sgpa_of_points m)%Qc ↔ n < m).
Proof.
  intros Hn Hm. split.
  - intros Hlt. destruct (Z.lt_trichotomy n m) as [H|[H|H]]; [exact H| |].
    + subst m. destruct (Qclt_not_eq _ _ Hlt eq_refl).
    + assert (Hgt : (sgpa_of_points m < sgpa_of_points n)%Qc)
        by (apply sgpa_of_points_strict; lia).
      destruct (Qclt_not_le _ _ Hlt). apply Qclt_le_weak, Hgt.
  - intros Hlt. apply sgpa_of_points_strict; lia.
Qed.

Lemma sgpa_of_points_inj (n m : Z) :
  0 ≤ n ≤ 240 → 0 ≤ m ≤ 240 → sgpa_of_points n = sgpa_of_points m → n = m.
Proof.
  intros Hn Hm Heq. destruct (Z.lt_trichotomy n m) as [H|[H|H]]; [|exact H|].
  - apply (sgpa_of_points_lt_iff n m Hn Hm) in H. rewrite Heq in H.
    destruct (Qclt_not_eq _ _ H eq_refl).
  - apply (sgpa_of_points_lt_iff m n Hm Hn) in H. rewrite Heq in H.
    destruct (Qclt_not_eq _ _ H eq_refl).
Qed.

Lemma sgpa_of_points_le (n m : Z) :
  0 ≤ n → n ≤ m → m ≤ 240 → (sgpa_of_points n ≤ sgpa_of_points m)%Qc.
Proof.
  intros Hn Hnm Hm. destruct (decide (n = m)) as [->|Hne]; [apply Qcle_refl|].
  apply Qclt_le_weak, sgpa_of_points_strict; lia.
Qed.

Lemma weighted_points_range (m : Z → Qc) : 0 ≤ weighted_points m ≤ 240.
Proof.
  rewrite weighted_points_unfold.
  pose proof (point_of_range (m 101)) as [? _].
  pose proof (point_of_range (m 103)) as [? _].
  pose proof (point_of_range (m 105)) as [? _].
  pose proof (point_of_range (m 107)) as [? _].
  pose proof (point_of_range (m 109)) as [? _].
  pose proof (point_of_range (m 161)) as [? _].
  pose proof (point_of_range (m 163)) as [? _].
  pose proof (point_of_range (m 165)) as [? _].
  pose proof (point_of_range (m 167)) as [? _].
  pose proof (point_of_range (m 169)) as [? _].
  pose proof (point_of_range (m 171)) as [? _].
  lia.
Qed.

(** X3: rounding moves the SGPA by less than one hundredth: the SGPA of
    every row of the processed frame lies between 0 and 10 and differs from
    the exact quotient of the weighted sum by 24 by less than 0.01.  (The
    two-decimal value is within half a hundredth of the quotient; the
    script holds the double nearest to that value, which is why the bound
    is stated with room to spare.) *)
Theorem sgpa_rounding_error parse (df : list student) :
  ∃ rows, process parse df = Some rows ∧ length rows = length df ∧
  ∀ r, r ∈ rows →
  (Qc_of_Z 0 ≤ SGPA (cols r))%Qc ∧ (SGPA (cols r) ≤ Qc_of_Z 10)%Qc ∧
  (Qabs (SGPA (cols r) - inject_Z (weighted_points (marks (cols r))) / inject_Z 24)
   < 1 # 100)%Q.
Proof.
  pose proof (process_eq parse df) as Hp.
  exists (row_of parse df <$> df). split; [exact Hp|].
  split; [apply length_fmap|].
  intros r Hr. destruct (process_rows _ _ _ _ Hp Hr) as [_ (s & _ & ->)].
  rewrite row_of_SGPA, row_of_marks.
  pose proof (weighted_points_range (cleaned parse s)) as Hn.
  destruct (sgpa_of_points_hundredths _ Hn) as (_ & _ & Herr).
  destruct (sgpa_of_points_range _ Hn) as (Hlo & Hhi & _).
  split; [exact Hlo|]. split; [exact Hhi|].
  eapply Qle_lt_trans; [exact Herr|]. reflexivity.
Qed.

(** ** Ranks and weighted sums *)

Lemma distinct_greater_le (col : list Qc) (x y : Qc) :
  (x ≤ y)%Qc → (distinct_greater col y ≤ distinct_greater col x)%nat.
Proof.
  intros Hxy. unfold distinct_greater. apply subseteq_size.
  intros z. rewrite !elem_of_filter. intros [Hz Hin]. split; [|exact Hin].
  exact (Qcle_lt_trans _ _ _ Hxy Hz).
Qed.

Lemma distinct_greater_lt (col : list Qc) (x y : Qc) :
  y ∈ col → (x < y)%Qc → (distinct_greater col y < distinct_greater col x)%nat.
Proof.
  intros Hy Hxy. unfold distinct_greater. apply subset_size. split.
  - intros z. rewrite !elem_of_filter. intros [Hz Hin]. split; [|exact Hin].
    exact (Qclt_trans _ _ _ Hxy Hz).
  - intros Hc. specialize (Hc y). rewrite !elem_of_filter, !elem_of_list_to_set in Hc.
    destruct Hc as [Hc _]; [auto|]. exact (Qclt_not_eq _ _ Hc eq_refl).
Qed.

(** Within a column the number of values above orders as the values do. *)
Lemma distinct_greater_lt_iff (col : list Qc) (x y : Qc) :
  x ∈ col → y ∈ col →
  ((distinct_greater col y < distinct_greater col x)%nat ↔ (x < y)%Qc).
Proof.
  intros Hx Hy. split; [|apply distinct_greater_lt, Hy].
  intros Hlt. destruct (Qclt_le_dec x y) as [H|H]; [exact H|].
  pose proof (distinct_greater_le col y x H). lia.
Qed.

(** X4: the rounding to two decimals merges no two weighted sums: in the
    processed frame two rows have the same SGPA exactly when their sums of
    credit times grade point are equal, the SGPA orders the rows as the sums
    do, and so does the rank (smaller rank, greater sum; equal rank, equal
    sum). *)
Theorem rank_follows_weighted_sum parse (df : list student) :
  ∃ rows, process parse df = Some rows ∧ ∀ r1 r2, r1 ∈ rows → r2 ∈ rows →
  let w1 := weighted_points (marks (cols r1)) in
  let w2 := weighted_points (marks (cols r2)) in
  (SGPA (cols r1) = SGPA (cols r2) ↔ w1 = w2) ∧
  ((SGPA (cols r1) < SGPA (cols r2))%Qc ↔ w1 < w2) ∧
  (Rank r1 < Rank r2 ↔ w2 < w1) ∧
  (Rank r1 = Rank r2 ↔ w1 = w2).
Proof.
  pose proof (process_eq parse df) as Hp.
  exists (row_of parse df <$> df). split; [exact Hp|].
  generalize dependent (row_of parse df <$> df). intros rows Hp r1 r2 H1 H2 w1 w2.
  destruct (rank_counts_greater _ _ _ Hp) as [Hrank _].
  pose proof (Hrank r1 H1) as Hr1. pose proof (Hrank r2 H2) as Hr2.
  assert (Hin1 : SGPA (cols r1) ∈ (λ r, SGPA (cols r)) <$> rows)
    by apply (list_elem_of_fmap_2 (λ r, SGPA (cols r))), H1.
  assert (Hin2 : SGPA (cols r2) ∈ (λ r, SGPA (cols r)) <$> rows)
    by apply (list_elem_of_fmap_2 (λ r, SGPA (cols r))), H2.
  pose proof (distinct_greater_lt_iff _ _ _ Hin1 Hin2) as Hlt12.
  pose proof (distinct_greater_lt_iff _ _ _ Hin2 Hin1) as Hlt21.
  assert (Hs1 : SGPA (cols r1) = sgpa_of_points w1 ∧ 0 ≤ w1 ≤ 240).
  { subst w1. destruct (process_rows _ _ _ _ Hp H1) as [_ (s & _ & ->)].
    rewrite row_of_SGPA, row_of_marks. split; [reflexivity|apply weighted_points_range]. }
  assert (Hs2 : SGPA (cols r2) = sgpa_of_points w2 ∧ 0 ≤ w2 ≤ 240).
  { subst w2. destruct (process_rows _ _ _ _ Hp H2) as [_ (s & _ & ->)].
    rewrite row_of_SGPA, row_of_marks. split; [reflexivity|apply weighted_points_range]. }
  destruct Hs1 as [Hs1 Hw1]. destruct Hs2 as [Hs2 Hw2].
  clearbody w1 w2.
  pose proof (sgpa_of_points_lt_iff w1 w2 Hw1 Hw2) as Hlt.
  pose proof (sgpa_of_points_lt_iff w2 w1 Hw2 Hw1) as Hgt.
  rewrite <- Hs1, <- Hs2 in Hlt, Hgt.
  assert (Heq : SGPA (cols r1) = SGPA (cols r2) ↔ w1 = w2).
  { split; [|congruence]. rewrite Hs1, Hs2. apply sgpa_of_points_inj; assumption. }
  split; [exact Heq|]. split; [exact Hlt|]. split.
  - rewrite <- Hgt, <- Hlt21. lia.
  - rewrite <- Heq. split.
    + intros HR. destruct (Qclt_le_dec (SGPA (cols r1)) (SGPA (cols r2))) as [H|H].
      * apply Hlt12 in H. lia.
      * destruct (Qcle_lt_or_eq _ _ H) as [H'|H']; [|congruence].
        apply Hlt21 in H'. lia.
    + intros HS. rewrite Hr1, Hr2, HS. reflexivity.
Qed.

Lemma rank_follows_weighted_sum_witness :
  ∃ rows r1 r2,
    process no_text_number sample_df = Some rows ∧ r1 ∈ rows ∧ r2 ∈ rows ∧
    (Rank r1 < Rank r2
     ↔ weighted_points (marks (cols r2)) < weighted_points (marks (cols r1))).
Proof.
  destruct (rank_follows_weighted_sum no_text_number sample_df) as (rows & Hp & H).
  assert (Hrows : rows = row_of no_text_number sample_df <$> sample_df).
  { rewrite process_eq in Hp. injection Hp as <-. reflexivity. }
  assert (H1 : row_of no_text_number sample_df (uniform "Asha" 1 (Num (Qc_of_Z 95))) ∈ rows).
  { rewrite Hrows. apply sample_row_in. right; left; reflexivity. }
  assert (H2 : row_of no_text_number sample_df (uniform "Zoya" 4 (Text "AB")) ∈ rows).
  { rewrite Hrows. apply sample_row_in. right; right; left; reflexivity. }
  exists rows, (row_of no_text_number sample_df (uniform "Asha" 1 (Num (Qc_of_Z 95)))),
    (row_of no_text_number sample_df (uniform "Zoya" 4 (Text "AB"))).
  split; [exact Hp|]. split; [exact H1|]. split; [exact H2|].
  exact (proj1 (proj2 (proj2 (H _ _ H1 H2)))).
Defined.

(** ** Marks, result and SGPA together *)

Lemma point_of_mono (m1 m2 : Qc) : (m1 ≤ m2)%Qc → point_of m1 ≤ point_of m2.
Proof. intros H. unfold point_of. bands; cbn [snd]; solve [lia | exfalso; lra]. Qed.

Lemma point_of_zero (m : Qc) : point_of m = 0 ↔ (m < Qc_of_Z 40)%Qc.
Proof.
  unfold point_of.
  bands; cbn [snd]; split; intros H; solve [reflexivity | discriminate | lra | lia].
Qed.

(** The rule on the least of the eleven grade points, for any grade points. *)
Lemma pass_or_fail_cols (gp : Z → Z) :
  (pass_or_fail (row_min (gp <$> subject_cols)) = "PASS"%string
   ↔ ∀ sub, sub ∈ subject_cols → 4 ≤ gp sub) ∧
  (pass_or_fail (row_min (gp <$> subject_cols)) = "FAIL"%string
   ↔ ∃ sub, sub ∈ subject_cols ∧ gp sub < 4).
Proof.
  destruct (row_min_spec (gp <$> subject_cols)) as (least & Hmin & Hin & Hle);
    [discriminate|].
  apply list_elem_of_fmap in Hin as (sub0 & Hsub0 & Hin0).
  assert (Hle' : ∀ sub, sub ∈ subject_cols → least ≤ gp sub).
  { intros sub Hsub. apply Hle, list_elem_of_fmap_2, Hsub. }
  rewrite Hmin. cbn [pass_or_fail].
  destruct (decide (4 ≤ least)) as [H4|H4].
  - rewrite bool_decide_eq_true_2 by exact H4. split; split.
    + intros _ sub Hsub. specialize (Hle' sub Hsub). lia.
    + reflexivity.
    + discriminate.
    + intros (sub & Hsub & Hlt). specialize (Hle' sub Hsub). lia.
  - rewrite bool_decide_eq_false_2 by exact H4. split; split.
    + discriminate.
    + intros Hall. specialize (Hall sub0 Hin0). lia.
    + intros _. exists sub0. split; [exact Hin0|lia].
    + reflexivity.
Qed.

Lemma weighted_points_mono (m1 m2 : Z → Qc) :
  (∀ sub, sub ∈ subject_cols → (m1 sub ≤ m2 sub)%Qc) →
  weighted_points m1 ≤ weighted_points m2.
Proof.
  intros H. rewrite subject_cols_forall in H.
  destruct H as (H1 & H2 & H3 & H4 & H5 & H6 & H7 & H8 & H9 & H10 & H11).
  apply point_of_mono in H1, H2, H3, H4, H5, H6, H7, H8, H9, H10, H11.
  rewrite !weighted_points_unfold. lia.
Qed.

(** X5: better marks never give a worse outcome: when one row of the
    processed frame has, in each of the eleven subjects, a cleaned mark at
    least that of another row, its SGPA is at least as high, its rank is at
    least as good, and it passes whenever the other one does. *)
Theorem better_marks_better_outcome parse (df : list student) :
  ∃ rows, process parse df = Some rows ∧ ∀ r1 r2, r1 ∈ rows → r2 ∈ rows →
  (∀ sub, sub ∈ subject_cols → (marks (cols r1) sub ≤ marks (cols r2) sub)%Qc) →
  (SGPA (cols r1) ≤ SGPA (cols r2))%Qc ∧ Rank r2 ≤ Rank r1 ∧
  (Result (cols r1) = "PASS"%string → Result (cols r2) = "PASS"%string).
Proof.
  pose proof (process_eq parse df) as Hp.
  exists (row_of parse df <$> df). split; [exact Hp|].
  generalize dependent (row_of parse df <$> df). intros rows Hp r1 r2 H1 H2 Hdom.
  destruct (rank_counts_greater _ _ _ Hp) as [Hrank _].
  rewrite (Hrank r1 H1), (Hrank r2 H2).
  destruct (process_rows _ _ _ _ Hp H1) as [_ (s1 & _ & ->)].
  destruct (process_rows _ _ _ _ Hp H2) as [_ (s2 & _ & ->)].
  rewrite !row_of_SGPA, !row_of_Result. rewrite !row_of_marks in Hdom.
  assert (Hs : (sgpa_of_points (weighted_points (cleaned parse s1))
                ≤ sgpa_of_points (weighted_points (cleaned parse s2)))%Qc).
  { pose proof (weighted_points_range (cleaned parse s1)).
    pose proof (weighted_points_range (cleaned parse s2)).
    apply sgpa_of_points_le; [lia|apply weighted_points_mono, Hdom|lia]. }
  split; [exact Hs|]. split.
  - pose proof (distinct_greater_le ((λ r, SGPA (cols r)) <$> rows) _ _ Hs). lia.
  - rewrite !(proj1 (pass_or_fail_cols _)). intros Hpass sub Hsub.
    specialize (Hpass sub Hsub). pose proof (point_of_mono _ _ (Hdom sub Hsub)). lia.
Qed.

Lemma better_marks_better_outcome_witness :
  ∃ rows r1 r2,
    process no_text_number sample_df = Some rows ∧ r1 ∈ rows ∧ r2 ∈ rows ∧
    (SGPA (cols r1) ≤ SGPA (cols r2))%Qc ∧ Rank r2 ≤ Rank r1.
Proof.
  destruct (better_marks_better_outcome no_text_number sample_df) as (rows & Hp & H).
  assert (Hrows : rows = row_of no_text_number sample_df <$> sample_df).
  { rewrite process_eq in Hp. injection Hp as <-. reflexivity. }
  assert (H1 : row_of no_text_number sample_df (uniform "Ravi" 2 (Num (Qc_of_Z 60))) ∈ rows).
  { rewrite Hrows. apply sample_row_in. left; reflexivity. }
  assert (H2 : row_of no_text_number sample_df (uniform "Asha" 1 (Num (Qc_of_Z 95))) ∈ rows).
  { rewrite Hrows. apply sample_row_in. right; left; reflexivity. }
  assert (Hdom : ∀ sub, sub ∈ subject_cols →
            (marks (cols (row_of no_text_number sample_df (uniform "Ravi" 2 (Num (Qc_of_Z 60))))) sub
             ≤ marks (cols (row_of no_text_number sample_df
                               (uniform "Asha" 1 (Num (Qc_of_Z 95))))) sub)%Qc).
  { intros sub _. vm_compute. discriminate. }
  exists rows, (row_of no_text_number sample_df (uniform "Ravi" 2 (Num (Qc_of_Z 60)))),
    (row_of no_text_number sample_df (uniform "Asha" 1 (Num (Qc_of_Z 95)))).
  split; [exact Hp|]. split; [exact H1|]. split; [exact H2|].
  split; [exact (proj1 (H _ _ H1 H2 Hdom))|exact (proj1 (proj2 (H _ _ H1 H2 Hdom)))].
Defined.

(** A failed subject costs at least ten of the 240 points. *)
Lemma weighted_points_with_zero (m : Z → Qc) (sub : Z) :
  sub ∈ subject_cols → point_of (m sub) = 0 → weighted_points m ≤ 230.
Proof.
  rewrite weighted_points_unfold.
  pose proof (point_of_range (m 101)) as [? _].
  pose proof (point_of_range (m 103)) as [? _].
  pose proof (point_of_range (m 105)) as [? _].
  pose proof (point_of_range (m 107)) as [? _].
  pose proof (point_of_range (m 109)) as [? _].
  pose proof (point_of_range (m 161)) as [? _].
  pose proof (point_of_range (m 163)) as [? _].
  pose proof (point_of_range (m 165)) as [? _].
  pose proof (point_of_range (m 167)) as [? _].
  pose proof (point_of_range (m 169)) as [? _].
  pose proof (point_of_range (m 171)) as [? _].
  revert sub.
  apply (Forall_forall (λ sub, point_of (m sub) = 0 → _ ≤ 230) subject_cols).
  unfold subject_cols.
  repeat (apply Forall_cons; split; [intros Hz; lia|]). apply Forall_nil_2.
Qed.

(** X6: the result bounds the SGPA: a row of the processed frame with result
    PASS has an SGPA of at least 4.00, and a row with result FAIL has an
    SGPA of at most 9.58 (one subject of one credit failed, all others at
    grade point 10). *)
Theorem result_bounds_sgpa parse (df : list student) :
  ∃ rows, process parse df = Some rows ∧ ∀ r, r ∈ rows →
  (Result (cols r) = "PASS"%string ∨ Result (cols r) = "FAIL"%string) ∧
  (Result (cols r) = "PASS"%string → (Qc_of_Z 4 ≤ SGPA (cols r))%Qc) ∧
  (Result (cols r) = "FAIL"%string → (SGPA (cols r) ≤ Q2Qc (958 # 100))%Qc).
Proof.
  pose proof (process_eq parse df) as Hp.
  exists (row_of parse df <$> df). split; [exact Hp|].
  intros r Hr. destruct (process_rows _ _ _ _ Hp Hr) as [_ (s & _ & ->)].
  rewrite row_of_SGPA, row_of_Result.
  generalize (cleaned parse s). intros m.
  pose proof (weighted_points_range m) as Hrange.
  pose proof (weighted_points_unfold m) as Hw.
  destruct (pass_or_fail_cols (λ sub, point_of (m sub))) as [Hpass Hfail].
  split; [|split].
  - destruct (decide (Forall (λ sub, 4 ≤ point_of (m sub)) subject_cols)) as [Hall|Hno].
    + left. apply Hpass. apply Forall_forall, Hall.
    + right. apply Hfail. apply not_Forall_Exists in Hno; [|apply _].
      apply Exists_exists in Hno as (sub & Hsub & Hlt). unfold compose in Hlt.
      exists sub. split; [exact Hsub|lia].
  - intros HP. pose proof (proj1 Hpass HP) as Hall.
    assert (H96 : 96 ≤ weighted_points m).
    { apply subject_cols_forall in Hall. cbn beta in Hall. lia. }
    assert (H4 : sgpa_of_points 96 = Qc_of_Z 4)
      by (apply Qc_is_canon; vm_compute; reflexivity).
    rewrite <- H4. apply sgpa_of_points_le; lia.
  - intros HF. destruct (proj1 Hfail HF) as (sub & Hsub & Hlt). cbn beta in Hlt.
    assert (H0 : point_of (m sub) = 0).
    { destruct (point_of_values (m sub)) as [H0|H4]; [exact H0|lia]. }
    pose proof (weighted_points_with_zero m sub Hsub H0) as Hlow.
    assert (H958 : sgpa_of_points 230 = Q2Qc (958 # 100))
      by (apply Qc_is_canon; vm_compute; reflexivity).
    rewrite <- H958. apply sgpa_of_points_le; lia.
Qed.

Lemma row_of_lookup parse (df : list student) (i : nat) (s : student) :
  df !! i = Some s → (row_of parse df <$> df) !! i = Some (row_of parse df s).
Proof. intros H. rewrite list_lookup_fmap, H. reflexivity. Qed.

(** X7: from the sheet to the result: the processed frame has a row for
    every row of the sheet, in the same order, and the result of a student
    is FAIL exactly when the cleaned mark of one of the eleven subjects is
    below 40; in particular an empty cell or a text that is no number under
    one of the eleven subjects makes the student fail, whatever the other
    marks are. *)
Theorem fail_iff_mark_below_40 parse (df : list student) :
  ∃ rows, process parse df = Some rows ∧ length rows = length df ∧
  ∀ i s, df !! i = Some s →
  ∃ r, rows !! i = Some r ∧
       RollNo (cols r) = raw_RollNo s ∧ Name (cols r) = raw_Name s ∧
       (Result (cols r) = "FAIL"%string
        ↔ ∃ sub, sub ∈ subject_cols ∧
                 (clean parse (raw_marks s sub) < Qc_of_Z 40)%Qc) ∧
       ((∃ sub, sub ∈ subject_cols ∧ to_numeric parse (raw_marks s sub) = None) →
        Result (cols r) = "FAIL"%string).
Proof.
  exists (row_of parse df <$> df). split; [apply process_eq|].
  split; [apply length_fmap|].
  intros i s Hi. exists (row_of parse df s).
  split; [apply row_of_lookup, Hi|].
  split; [reflexivity|]. split; [reflexivity|].
  rewrite row_of_Result.
  destruct (pass_or_fail_cols (λ sub, point_of (cleaned parse s sub))) as [_ Hfail].
  assert (Hiff : pass_or_fail (row_min ((λ sub, point_of (cleaned parse s sub)) <$> subject_cols))
                 = "FAIL"%string
                 ↔ ∃ sub, sub ∈ subject_cols ∧
                          (clean parse (raw_marks s sub) < Qc_of_Z 40)%Qc).
  { split.
    - intros HF. destruct (proj1 Hfail HF) as (sub & Hsub & Hlt). cbn beta in Hlt.
      exists sub. split; [exact Hsub|]. apply point_of_zero.
      destruct (point_of_values (cleaned parse s sub)) as [H0|H4]; [exact H0|lia].
    - intros (sub & Hsub & Hlt). apply (proj2 Hfail). exists sub. split; [exact Hsub|].
      cbn beta. unfold cleaned. rewrite (proj2 (point_of_zero _) Hlt). lia. }
  split; [exact Hiff|].
  intros (sub & Hsub & Hnan). apply (proj2 Hiff). exists sub. split; [exact Hsub|].
  unfold clean. rewrite Hnan. reflexivity.
Qed.

Lemma fail_iff_mark_below_40_witness :
  ∃ rows r,
    process no_text_number sample_df = Some rows ∧ rows !! 2%nat = Some r ∧
    Name (cols r) = "Zoya"%string ∧ Result (cols r) = "FAIL"%string.
Proof.
  destruct (fail_iff_mark_below_40 no_text_number sample_df) as (rows & Hp & _ & H).
  destruct (H 2%nat (uniform "Zoya" 4 (Text "AB")) eq_refl) as (r & Hr & _ & Hname & _ & Habs).
  exists rows, r. split; [exact Hp|]. split; [exact Hr|]. split; [exact Hname|].
  apply Habs. exists 101. split; [apply list_elem_of_here|reflexivity].
Defined.

(** ** The range of the ranks *)

Lemma size_list_to_set_le (l : list Qc) : (size (list_to_set l : gset Qc) ≤ length l)%nat.
Proof.
  induction l as [|x l IH]; cbn [length].
  - rewrite list_to_set_nil, size_empty. lia.
  - rewrite list_to_set_cons, size_union_alt, size_singleton.
    assert (size (list_to_set l ∖ {[x]} : gset Qc) ≤ size (list_to_set l : gset Qc))%nat
      by (apply subseteq_size; intros z Hz; apply elem_of_difference in Hz; tauto).
    lia.
Qed.

Lemma distinct_greater_bound (col : list Qc) (x : Qc) :
  x ∈ col → (distinct_greater col x < size (list_to_set col : gset Qc))%nat.
Proof.
  intros Hx. unfold distinct_greater. apply subset_size. split.
  - intros z. rewrite elem_of_filter. tauto.
  - intros Hc. specialize (Hc x). rewrite elem_of_filter, elem_of_list_to_set in Hc.
    destruct (Hc Hx) as [Hlt _]. exact (Qclt_not_eq _ _ Hlt eq_refl).
Qed.

Lemma distinct_greater_inj (col : list Qc) (x y : Qc) :
  x ∈ col → y ∈ col → distinct_greater col x = distinct_greater col y → x = y.
Proof.
  intros Hx Hy Heq. destruct (Qclt_le_dec x y) as [H|H].
  - pose proof (distinct_greater_lt col x y Hy H). lia.
  - destruct (Qcle_lt_or_eq _ _ H) as [H'|H']; [|congruence].
    pose proof (distinct_greater_lt col y x Hx H'). lia.
Qed.

(** Every number below the number of distinct values is the number of values
    above one of them. *)
Lemma distinct_greater_onto (col : list Qc) (n : nat) :
  (n < size (list_to_set col : gset Qc))%nat →
  ∃ x, x ∈ col ∧ distinct_greater col x = n.
Proof.
  intros Hn. set (G := list_to_set col : gset Qc) in *.
  set (image := list_to_set (distinct_greater col <$> elements G) : gset nat).
  assert (Hnodup : NoDup (distinct_greater col <$> elements G)).
  { apply NoDup_fmap_2_strong; [|apply NoDup_elements].
    intros x y Hx Hy. apply elem_of_elements, elem_of_list_to_set in Hx, Hy.
    apply distinct_greater_inj; assumption. }
  assert (Hsize : size image = size G).
  { unfold image. rewrite size_list_to_set by exact Hnodup.
    rewrite length_fmap. reflexivity. }
  assert (Hsub : image ⊆ set_seq 0 (size G)).
  { intros k Hk. unfold image in Hk.
    apply elem_of_list_to_set, list_elem_of_fmap in Hk as (x & -> & Hx).
    apply elem_of_elements, elem_of_list_to_set in Hx.
    apply elem_of_set_seq. pose proof (distinct_greater_bound col x Hx). fold G in H. lia. }
  assert (Heq : image = set_seq 0 (size G)).
  { apply set_subseteq_size_eq; [exact Hsub|]. rewrite size_set_seq, Hsize. lia. }
  assert (Hin : n ∈ image) by (rewrite Heq; apply elem_of_set_seq; lia).
  unfold image in Hin.
  apply elem_of_list_to_set, list_elem_of_fmap in Hin as (x & -> & Hx).
  apply elem_of_elements, elem_of_list_to_set in Hx. exists x. auto.
Qed.

(** X8: the ranks of a processed frame are exactly the integers from 1 to
    the number of distinct SGPA values: every rank lies between 1 and that
    number, which is at most the number of rows, and every integer of that
    range is the rank of some row. *)
Theorem ranks_fill_range parse (df : list student) :
  ∃ rows, process parse df = Some rows ∧
  let distinct := Z.of_nat (size (list_to_set ((λ r, SGPA (cols r)) <$> rows) : gset Qc)) in
  distinct ≤ Z.of_nat (length rows) ∧
  (∀ r, r ∈ rows → 1 ≤ Rank r ≤ distinct) ∧
  (∀ n, 1 ≤ n ≤ distinct → ∃ r, r ∈ rows ∧ Rank r = n).
Proof.
  pose proof (process_eq parse df) as Hp.
  exists (row_of parse df <$> df). split; [exact Hp|].
  generalize dependent (row_of parse df <$> df). intros rows Hp distinct.
  destruct (rank_counts_greater _ _ _ Hp) as [Hrank _].
  split; [|split].
  - subst distinct. pose proof (size_list_to_set_le ((λ r, SGPA (cols r)) <$> rows)) as H.
    rewrite length_fmap in H. lia.
  - intros r Hr. rewrite (Hrank r Hr). subst distinct.
    pose proof (distinct_greater_bound ((λ r, SGPA (cols r)) <$> rows) (SGPA (cols r))
                  (list_elem_of_fmap_2 (λ r, SGPA (cols r)) _ _ Hr)).
    lia.
  - intros n Hn. subst distinct.
    destruct (distinct_greater_onto ((λ r, SGPA (cols r)) <$> rows) (Z.to_nat (n - 1)))
      as (x & Hx & Hdg); [lia|].
    apply list_elem_of_fmap in Hx as (r & -> & Hr).
    exists r. split; [exact Hr|]. rewrite (Hrank r Hr), Hdg. lia.
Qed.

(** ** One more row in the sheet *)

Lemma distinct_greater_snoc (col : list Qc) (x y : Qc) :
  distinct_greater (col ++ [y]) x
  = if decide ((x < y)%Qc ∧ y ∉ col)
    then S (distinct_greater col x) else distinct_greater col x.
Proof.
  unfold distinct_greater.
  assert (Hset : (list_to_set (col ++ [y]) : gset Qc) = list_to_set col ∪ {[y]}).
  { apply set_eq. intros z.
    rewrite elem_of_list_to_set, elem_of_app, elem_of_union, elem_of_list_to_set,
      list_elem_of_singleton, elem_of_singleton. reflexivity. }
  rewrite Hset, filter_union_L; [|apply _].
  destruct (decide ((x < y)%Qc ∧ y ∉ col)) as [[Hlt Hnew]|Hno].
  - assert (Hy : filter (λ z, (x < z)%Qc) ({[y]} : gset Qc) = {[y]}).
    { apply set_eq. intros z. rewrite elem_of_filter, elem_of_singleton.
      split; [tauto|]. intros ->. auto. }
    rewrite Hy, size_union, size_singleton; [lia|].
    intros z. rewrite elem_of_filter, elem_of_list_to_set, elem_of_singleton.
    intros [_ Hz] ->. contradiction.
  - f_equal. apply set_eq. intros z.
    rewrite elem_of_union, !elem_of_filter, elem_of_list_to_set, elem_of_singleton.
    split; [|tauto]. intros [H|[Hlt ->]]; [exact H|].
    split; [exact Hlt|]. destruct (decide (y ∈ col)) as [Hin|Hnin]; [exact Hin|].
    destruct Hno. auto.
Qed.

Lemma row_of_cols parse df s : cols (row_of parse df s) = columns_of parse s.
Proof. reflexivity. Qed.

Lemma row_of_Rank parse df s :
  Rank (row_of parse df s)
  = 1 + Z.of_nat (distinct_greater (SGPA <$> (columns_of parse <$> df))
                                    (SGPA (columns_of parse s))).
Proof. reflexivity. Qed.

(** X9: what a new row at the end of the sheet does to the others: the rows
    of the old frame keep all their row-wise columns, and the rank of a row
    goes down by one place exactly when the SGPA of the newcomer is above
    its own and is not an SGPA already present; otherwise the rank stays. *)
Theorem rank_after_new_row parse (df : list student) (s : student) :
  ∃ rows rows' new,
    process parse df = Some rows ∧ process parse (df ++ [s]) = Some (rows' ++ [new]) ∧
    length rows' = length rows ∧
    ∀ i r, rows !! i = Some r →
    ∃ r', rows' !! i = Some r' ∧ cols r' = cols r ∧
          Rank r' = if decide ((SGPA (cols r) < SGPA (cols new))%Qc
                               ∧ SGPA (cols new) ∉ (λ r, SGPA (cols r)) <$> rows)
                    then Rank r + 1 else Rank r.
Proof.
  exists (row_of parse df <$> df), (row_of parse (df ++ [s]) <$> df),
    (row_of parse (df ++ [s]) s).
  split; [apply process_eq|]. split.
  { rewrite process_eq, fmap_app. reflexivity. }
  split; [rewrite !length_fmap; reflexivity|].
  intros i r Hi. rewrite list_lookup_fmap in Hi.
  destruct (df !! i) as [t|] eqn:Ht; [|discriminate]. injection Hi as <-.
  exists (row_of parse (df ++ [s]) t).
  split; [rewrite list_lookup_fmap, Ht; reflexivity|]. split; [reflexivity|].
  rewrite !row_of_Rank, !row_of_cols, <- SGPA_column.
  rewrite !fmap_app. cbn [fmap list_fmap].
  rewrite distinct_greater_snoc.
  destruct (decide ((SGPA (columns_of parse t) < SGPA (columns_of parse s))%Qc
                    ∧ SGPA (columns_of parse s) ∉ SGPA <$> (columns_of parse <$> df)));
    lia.
Qed.

(** ** Dense rank and place in the topper list *)

Lemma topper_le_sgpa (a b : row) :
  topper_le a b = true → (SGPA (cols b) ≤ SGPA (cols a))%Qc.
Proof.
  rewrite topper_le_inv. intros [H|[H _]].
  - apply Qclt_le_weak, H.
  - rewrite H. apply Qcle_refl.
Qed.

(** In a list sorted by SGPA descending, the values above the one at place
    [i] all stand before it. *)
Lemma distinct_greater_sorted (S : list row) (i : nat) (r : row) :
  StronglySorted (λ a b, topper_le a b = true) S → S !! i = Some r →
  (distinct_greater ((λ r, SGPA (cols r)) <$> S) (SGPA (cols r)) ≤ i)%nat.
Proof.
  intros Hs Hi. unfold distinct_greater.
  transitivity (size (list_to_set ((λ r, SGPA (cols r)) <$> take i S) : gset Qc)).
  - apply subseteq_size. intros z.
    rewrite elem_of_filter, !elem_of_list_to_set. intros [Hz Hin].
    apply list_elem_of_fmap in Hin as (r' & -> & Hr').
    apply list_elem_of_lookup in Hr' as [j Hj].
    apply list_elem_of_fmap. exists r'. split; [reflexivity|].
    apply elem_of_take. exists j. split; [exact Hj|].
    destruct (decide (j < i)%nat) as [Hlt|Hge]; [exact Hlt|]. exfalso.
    destruct (decide (j = i)) as [->|Hne].
    + rewrite Hi in Hj. injection Hj as ->. exact (Qclt_not_eq _ _ Hz eq_refl).
    + assert (Hij : (i < j)%nat) by lia.
      pose proof (strongly_sorted_lookup _ _ _ _ _ _ Hs Hij Hi Hj) as Hle.
      apply topper_le_sgpa in Hle. exact (Qclt_not_le _ _ Hz Hle).
  - etransitivity; [apply size_list_to_set_le|].
    rewrite length_fmap, length_take. lia.
Qed.

Lemma distinct_greater_perm (l k : list Qc) (x : Qc) :
  l ≡ₚ k → distinct_greater l x = distinct_greater k x.
Proof.
  intros Hperm. unfold distinct_greater. f_equal. f_equal.
  apply set_eq. intros z. rewrite !elem_of_list_to_set, Hperm. reflexivity.
Qed.

(** X10: the dense rank against the place in the overall topper list: on
    every line the Rank is at least 1 and at most the Overall Rank, and the
    line with Overall Rank 1 holds a row of Rank 1. *)
Theorem rank_at_most_overall_rank parse (df : list student) :
  ∃ rows, process parse df = Some rows ∧
  (∀ line, line ∈ topper_df rows → 1 ≤ Rank line.2 ≤ line.1) ∧
  (∀ line, topper_df rows !! 0%nat = Some line → line.1 = 1 ∧ Rank line.2 = 1).
Proof.
  pose proof (process_eq parse df) as Hp.
  exists (row_of parse df <$> df). split; [exact Hp|].
  generalize dependent (row_of parse df <$> df). intros rows Hp.
  destruct (rank_counts_greater _ _ _ Hp) as [Hrank _].
  assert (Hline : ∀ i line, topper_df rows !! i = Some line →
            line.1 = Z.of_nat i + 1 ∧ 1 ≤ Rank line.2 ≤ line.1).
  { intros i line Hi. unfold topper_df in Hi.
    apply list_lookup_imap_Some in Hi as (r & Hr & ->). cbn [fst snd].
    split; [reflexivity|].
    assert (Hin : r ∈ rows).
    { apply (sort_by_elem_of topper_le). eapply list_elem_of_lookup_2, Hr. }
    rewrite (Hrank r Hin).
    rewrite (distinct_greater_perm _ ((λ r, SGPA (cols r)) <$> sort_by topper_le rows))
      by (apply fmap_Permutation; symmetry; apply sort_by_perm).
    pose proof (distinct_greater_sorted _ i r
                  (sort_by_sorted topper_le topper_le_total topper_le_trans rows) Hr).
    lia. }
  split.
  - intros line Hin. apply list_elem_of_lookup in Hin as [i Hi].
    apply (Hline i line Hi).
  - intros line H0. destruct (Hline 0%nat line H0) as [H1 H2]. lia.
Qed.

(** ** Class analytics *)

(** The display name of a subject of the scheme. *)
Definition subject_name (sub : Z) : string := default ""%string (SUBJECT_NAMES !! sub).

(** The number of rows with a mark below 40 in a subject. *)
Definition below_40 (df : list row) (sub : Z) : Z :=
  Z.of_nat (length (List.filter
                      (λ r, bool_decide (marks (cols r) sub < Qc_of_Z 40)%Qc) df)).

(** The number of rows with result FAIL. *)
Definition failed (df : list row) : Z :=
  Z.of_nat (length (List.filter
                      (λ r, bool_decide (Result (cols r) = "FAIL"%string)) df)).

Lemma SUBJECT_NAMES_subject (sub : Z) :
  sub ∈ subject_cols → SUBJECT_NAMES !! sub = Some (subject_name sub).
Proof.
  revert sub. apply Forall_forall. unfold subject_cols.
  repeat (apply Forall_cons; split; [reflexivity|]). apply Forall_nil_2.
Qed.

Lemma subject_names_distinct : NoDup (subject_name <$> subject_cols).
Proof.
  apply (bool_decide_unpack (NoDup (subject_name <$> subject_cols))).
  vm_compute. exact I.
Qed.

(** A row with its grade columns in place, as the grade loop leaves it. *)
Definition graded (r : row) : Prop :=
  ∀ sub, sub ∈ subject_cols →
    Grade (cols r) !! sub = Some (grade_of (marks (cols r) sub)) ∧
    GP (cols r) !! sub = Some (point_of (marks (cols r) sub)).

Lemma row_of_graded parse df s : graded (row_of parse df s).
Proof.
  intros sub Hsub. rewrite row_of_Grade, row_of_GP, row_of_marks.
  rewrite apply_grades_Grade, apply_grades_GP, !decide_True by exact Hsub. auto.
Qed.

Lemma processed_graded parse df rows :
  process parse df = Some rows → Forall graded rows.
Proof.
  rewrite process_eq. intros [= <-]. apply Forall_forall. intros r Hr.
  apply list_elem_of_fmap in Hr as (s & -> & _). apply row_of_graded.
Qed.

Lemma count_zero_below_40 (df : list row) (sub : Z) :
  count_zero ((λ r, point_of (marks (cols r) sub)) <$> df) = below_40 df sub.
Proof.
  unfold count_zero, below_40. f_equal.
  induction df as [|r df IH]; [reflexivity|].
  cbn [fmap list_fmap List.filter].
  destruct (decide (marks (cols r) sub < Qc_of_Z 40)%Qc) as [Hlt|Hge].
  - rewrite (bool_decide_eq_true_2 (point_of _ = 0)) by (apply point_of_zero, Hlt).
    rewrite (bool_decide_eq_true_2 (_ < _)%Qc) by exact Hlt.
    cbn [length]. f_equal. exact IH.
  - rewrite (bool_decide_eq_false_2 (point_of _ = 0))
      by (intros H0; apply Hge, point_of_zero, H0).
    rewrite (bool_decide_eq_false_2 (_ < _)%Qc) by exact Hge. exact IH.
Qed.

Lemma GP_column_graded (df : list row) (sub : Z) :
  Forall graded df → sub ∈ subject_cols →
  GP_column df sub = Some ((λ r, point_of (marks (cols r) sub)) <$> df).
Proof.
  intros Hg Hsub. unfold GP_column.
  apply mapM_Some, Forall2_fmap_r, Forall_Forall2_diag.
  eapply Forall_impl; [exact Hg|]. intros r Hr. apply (Hr sub Hsub).
Qed.

(** The loop of [fail_counts] over a list of subjects of the scheme. *)
Lemma fail_counts_loop (df : list row) (l : list Z) (d : gmap string Z) :
  Forall graded df → (∀ sub, sub ∈ l → sub ∈ subject_cols) →
  foldl (λ acc sub,
           d ← acc;
           name ← SUBJECT_NAMES !! sub;
           col ← GP_column df sub;
           Some (<[name := count_zero col]> d))
        (Some d) l
  = Some (foldl (λ d sub, <[subject_name sub := below_40 df sub]> d) d l).
Proof.
  intros Hg. revert d. induction l as [|x l IH]; intros d Hl; [reflexivity|].
  cbn [foldl mbind option_bind].
  assert (Hx : x ∈ subject_cols) by (apply Hl, list_elem_of_here).
  rewrite (SUBJECT_NAMES_subject x Hx). cbn [mbind option_bind].
  rewrite (GP_column_graded df x Hg Hx). cbn [mbind option_bind].
  rewrite count_zero_below_40.
  apply IH. intros sub Hsub. apply Hl, list_elem_of_further, Hsub.
Qed.

Lemma foldl_insert_key_other {V} (key : Z → string) (f : Z → V) (l : list Z)
    (d : gmap string V) (k : string) :
  k ∉ key <$> l → foldl (λ d s, <[key s := f s]> d) d l !! k = d !! k.
Proof.
  revert d. induction l as [|x l IH]; intros d Hk; [reflexivity|].
  cbn [fmap list_fmap] in Hk. apply not_elem_of_cons in Hk as [Hne Hk].
  cbn [foldl]. rewrite IH by exact Hk. apply lookup_insert_ne. congruence.
Qed.

Lemma foldl_insert_key_lookup {V} (key : Z → string) (f : Z → V) (l : list Z)
    (d : gmap string V) (sub : Z) :
  NoDup (key <$> l) → sub ∈ l →
  foldl (λ d s, <[key s := f s]> d) d l !! key sub = Some (f sub).
Proof.
  revert d. induction l as [|x l IH]; intros d Hnd Hin.
  - apply elem_of_nil in Hin. destruct Hin.
  - cbn [fmap list_fmap] in Hnd. apply NoDup_cons in Hnd as [Hx Hnd].
    cbn [foldl]. apply elem_of_cons in Hin as [->|Hin]; [|apply IH; assumption].
    rewrite foldl_insert_key_other by exact Hx. apply lookup_insert_eq.
Qed.

Lemma foldl_insert_key_dom {V} (key : Z → string) (f : Z → V) (l : list Z)
    (d : gmap string V) (k : string) :
  is_Some (foldl (λ d s, <[key s := f s]> d) d l !! k)
  ↔ k ∈ key <$> l ∨ is_Some (d !! k).
Proof.
  revert d. induction l as [|x l IH]; intros d; cbn [foldl fmap list_fmap].
  - rewrite elem_of_nil. tauto.
  - rewrite IH, elem_of_cons. destruct (decide (key x = k)) as [<-|Hne].
    + rewrite lookup_insert_eq. split; [auto|]. intros _. right. eauto.
    + rewrite lookup_insert_ne by exact Hne. split; [tauto|].
      intros [[Heq|H]|H]; [congruence|auto|auto].
Qed.

Lemma filter_length_mono {A} (p q : A → bool) (l : list A) :
  (∀ x, x ∈ l → p x = true → q x = true) →
  (length (List.filter p l) ≤ length (List.filter q l))%nat.
Proof.
  induction l as [|x l IH]; intros H; [reflexivity|]. cbn [List.filter].
  assert (IH' : (length (List.filter p l) ≤ length (List.filter q l))%nat).
  { apply IH. intros y Hy. apply H, list_elem_of_further, Hy. }
  destruct (p x) eqn:Hp.
  - rewrite (H x (list_elem_of_here _ _) Hp). cbn [length]. lia.
  - destruct (q x); cbn [length]; lia.
Qed.

Lemma filter_length_zero {A} (p : A → bool) (l : list A) :
  length (List.filter p l) = 0%nat ↔ ∀ x, x ∈ l → p x = false.
Proof.
  induction l as [|x l IH]; cbn [List.filter].
  - split; [|reflexivity]. intros _ x Hx. apply elem_of_nil in Hx. destruct Hx.
  - destruct (p x) eqn:Hp; cbn [length].
    + split; [lia|]. intros H. specialize (H x (list_elem_of_here _ _)). congruence.
    + rewrite IH. split.
      * intros H y Hy. apply elem_of_cons in Hy as [->|Hy]; [exact Hp|apply H, Hy].
      * intros H y Hy. apply H, list_elem_of_further, Hy.
Qed.

Lemma fail_counts_eq (df : list row) :
  Forall graded df →
  fail_counts df
  = Some (foldl (λ d sub, <[subject_name sub := below_40 df sub]> d) ∅ subject_cols).
Proof. intros Hg. apply fail_counts_loop; [exact Hg|auto]. Qed.

(** What a count of the table of fail counts is. *)
Lemma fail_counts_entry (df : list row) (name : string) (n : Z) :
  foldl (λ d sub, <[subject_name sub := below_40 df sub]> d) (∅ : gmap string Z)
        subject_cols !! name
  = Some n →
  ∃ sub, sub ∈ subject_cols ∧ name = subject_name sub ∧ n = below_40 df sub.
Proof.
  intros Hn.
  assert (Hdom : name ∈ subject_name <$> subject_cols).
  { destruct (proj1 (foldl_insert_key_dom subject_name (below_40 df) subject_cols ∅ name))
      as [H|H]; [rewrite Hn; eauto|exact H|].
    rewrite lookup_empty in H. destruct H as [? H]. discriminate. }
  apply list_elem_of_fmap in Hdom as (sub & -> & Hsub).
  exists sub. split; [exact Hsub|]. split; [reflexivity|].
  rewrite (foldl_insert_key_lookup _ _ _ _ _ subject_names_distinct Hsub) in Hn.
  congruence.
Qed.

(** X11: the table of fail counts of a processed frame has one entry for
    each of the eleven subject names and no other; the entry of a subject is
    the number of rows whose cleaned mark in that subject is below 40. *)
Theorem fail_counts_by_subject parse (df : list student) :
  ∃ rows counts,
    process parse df = Some rows ∧ fail_counts rows = Some counts ∧
    size counts = 11%nat ∧
    (∀ sub, sub ∈ subject_cols →
       ∃ name, SUBJECT_NAMES !! sub = Some name ∧
               counts !! name = Some (below_40 rows sub)) ∧
    (∀ name, is_Some (counts !! name) →
       ∃ sub, sub ∈ subject_cols ∧ SUBJECT_NAMES !! sub = Some name).
Proof.
  pose proof (process_eq parse df) as Hp.
  exists (row_of parse df <$> df).
  generalize dependent (row_of parse df <$> df). intros rows Hp.
  pose proof (fail_counts_eq rows (processed_graded _ _ _ Hp)) as Hfc.
  eexists. split; [exact Hp|]. split; [exact Hfc|].
  set (counts := foldl (λ d sub, <[subject_name sub := below_40 rows sub]> d)
                       (∅ : gmap string Z) subject_cols).
  split; [|split].
  - assert (Hdom : dom counts = list_to_set (subject_name <$> subject_cols)).
    { apply set_eq. intros name.
      rewrite elem_of_dom, elem_of_list_to_set. unfold counts.
      rewrite foldl_insert_key_dom, lookup_empty. split; [|auto].
      intros [H|[? H]]; [exact H|discriminate]. }
    rewrite <- size_dom, Hdom, size_list_to_set by exact subject_names_distinct.
    reflexivity.
  - intros sub Hsub. exists (subject_name sub).
    split; [apply SUBJECT_NAMES_subject, Hsub|].
    apply foldl_insert_key_lookup; [exact subject_names_distinct|exact Hsub].
  - intros name [n Hn]. destruct (fail_counts_entry rows name n Hn) as (sub & Hsub & -> & _).
    exists sub. split; [exact Hsub|apply SUBJECT_NAMES_subject, Hsub].
Qed.

Lemma processed_result parse df rows r :
  process parse df = Some rows → r ∈ rows →
  Result (cols r)
  = pass_or_fail (row_min ((λ sub, point_of (marks (cols r) sub)) <$> subject_cols)).
Proof.
  intros Hp Hr. destruct (process_rows _ _ _ _ Hp Hr) as [_ (s & _ & ->)].
  rewrite row_of_Result, row_of_marks. reflexivity.
Qed.

(** A row of a processed frame fails exactly when one of its eleven marks is
    below 40. *)
Lemma processed_fail_iff parse df rows r :
  process parse df = Some rows → r ∈ rows →
  (Result (cols r) = "FAIL"%string
   ↔ ∃ sub, sub ∈ subject_cols ∧ (marks (cols r) sub < Qc_of_Z 40)%Qc) ∧
  (Result (cols r) = "PASS"%string ∨ Result (cols r) = "FAIL"%string).
Proof.
  intros Hp Hr. rewrite (processed_result _ _ _ _ Hp Hr).
  destruct (pass_or_fail_cols (λ sub, point_of (marks (cols r) sub))) as [Hpass Hfail].
  split.
  - split.
    + intros HF. destruct (proj1 Hfail HF) as (sub & Hsub & Hlt). cbn beta in Hlt.
      exists sub. split; [exact Hsub|]. apply point_of_zero.
      destruct (point_of_values (marks (cols r) sub)); [assumption|lia].
    + intros (sub & Hsub & Hlt). apply (proj2 Hfail). exists sub. split; [exact Hsub|].
      cbn beta. rewrite (proj2 (point_of_zero _) Hlt). lia.
  - destruct (decide (Forall (λ sub, 4 ≤ point_of (marks (cols r) sub)) subject_cols))
      as [Hall|Hno].
    + left. apply (proj2 Hpass). apply Forall_forall, Hall.
    + right. apply (proj2 Hfail). apply not_Forall_Exists in Hno; [|apply _].
      apply Exists_exists in Hno as (sub & Hsub & Hlt). unfold compose in Hlt.
      exists sub. split; [exact Hsub|lia].
Qed.

(** X12: the table of fail counts against the results: no count exceeds the
    number of rows with result FAIL, which is at most the number of rows,
    and all the counts are 0 exactly when every row has result PASS. *)
Theorem fail_counts_and_results parse (df : list student) :
  ∃ rows counts,
    process parse df = Some rows ∧ fail_counts rows = Some counts ∧
    (∀ name n, counts !! name = Some n → 0 ≤ n ≤ failed rows) ∧
    failed rows ≤ Z.of_nat (length rows) ∧
    ((∀ name n, counts !! name = Some n → n = 0)
     ↔ ∀ r, r ∈ rows → Result (cols r) = "PASS"%string).
Proof.
  pose proof (process_eq parse df) as Hp.
  exists (row_of parse df <$> df).
  generalize dependent (row_of parse df <$> df). intros rows Hp.
  pose proof (fail_counts_eq rows (processed_graded _ _ _ Hp)) as Hfc.
  eexists. split; [exact Hp|]. split; [exact Hfc|].
  split; [|split].
  - intros name n Hn. destruct (fail_counts_entry rows name n Hn) as (sub & Hsub & _ & ->).
    unfold below_40, failed. split; [lia|]. apply inj_le, filter_length_mono.
    intros r Hr Hlt. apply bool_decide_eq_true in Hlt. apply bool_decide_eq_true.
    apply (proj1 (processed_fail_iff _ _ _ _ Hp Hr)). eauto.
  - unfold failed. apply inj_le. clear. induction rows as [|r rows IH]; [reflexivity|].
    cbn [List.filter]. destruct (bool_decide _); cbn [length]; lia.
  - split.
    + intros Hzero r Hr.
      destruct (processed_fail_iff _ _ _ _ Hp Hr) as [Hiff [HP|HF]]; [exact HP|].
      exfalso. destruct (proj1 Hiff HF) as (sub & Hsub & Hlt).
      assert (Hn : below_40 rows sub = 0).
      { apply (Hzero (subject_name sub)).
        apply foldl_insert_key_lookup; [exact subject_names_distinct|exact Hsub]. }
      unfold below_40 in Hn.
      assert (Hlen : length (List.filter
                       (λ r, bool_decide (marks (cols r) sub < Qc_of_Z 40)%Qc) rows) = 0%nat)
        by lia.
      rewrite filter_length_zero in Hlen. specialize (Hlen r Hr).
      apply bool_decide_eq_false in Hlen. contradiction.
    + intros Hpass name n Hn.
      destruct (fail_counts_entry rows name n Hn) as (sub & Hsub & _ & ->).
      unfold below_40.
      rewrite (proj2 (filter_length_zero _ rows)); [reflexivity|].
      intros r Hr. apply bool_decide_eq_false. intros Hlt.
      assert (HF : Result (cols r) = "FAIL"%string)
        by (apply (proj1 (processed_fail_iff _ _ _ _ Hp Hr)); eauto).
      rewrite (Hpass r Hr) in HF. discriminate.
Qed.

(** ** The student search *)

Lemma unique_loop (l seen : list string) :
  NoDup seen →
  NoDup (foldl (λ seen x, if decide (x ∈ seen) then seen else seen ++ [x]) seen l) ∧
  ∀ x, x ∈ foldl (λ seen x, if decide (x ∈ seen) then seen else seen ++ [x]) seen l
       ↔ x ∈ seen ∨ x ∈ l.
Proof.
  revert seen. induction l as [|y l IH]; intros seen Hnd; cbn [foldl].
  - split; [exact Hnd|]. intros x. rewrite elem_of_nil. tauto.
  - destruct (decide (y ∈ seen)) as [Hy|Hy].
    + destruct (IH seen Hnd) as [H1 H2]. split; [exact H1|].
      intros x. rewrite H2, elem_of_cons. split; [tauto|].
      intros [H|[->|H]]; auto.
    + assert (Hnd' : NoDup (seen ++ [y])).
      { apply NoDup_app. split; [exact Hnd|]. split; [|apply NoDup_singleton].
        intros x Hx Hxy. apply list_elem_of_singleton in Hxy. subst x. contradiction. }
      destruct (IH (seen ++ [y]) Hnd') as [H1 H2]. split; [exact H1|].
      intros x. rewrite H2, elem_of_app, list_elem_of_singleton, elem_of_cons. tauto.
Qed.

Lemma unique_spec (l : list string) : NoDup (unique l) ∧ ∀ x, x ∈ unique l ↔ x ∈ l.
Proof.
  destruct (unique_loop l [] (NoDup_nil_2)) as [H1 H2]. split; [exact H1|].
  intros x. unfold unique. rewrite H2, elem_of_nil. tauto.
Qed.

(** X13: the names offered by the select box are exactly the names of the
    frame, each one once, in strictly ascending order. *)
Theorem name_options_sorted (df : list row) :
  (∀ name, name ∈ name_options df ↔ ∃ r, r ∈ df ∧ Name (cols r) = name) ∧
  NoDup (name_options df) ∧
  (∀ i j a b, (i < j)%nat → name_options df !! i = Some a → name_options df !! j = Some b →
     String.ltb a b = true).
Proof.
  unfold name_options.
  destruct (unique_spec ((λ r, Name (cols r)) <$> df)) as [Hnd Hin].
  pose proof (sort_by_perm String.leb (unique ((λ r, Name (cols r)) <$> df))) as Hperm.
  pose proof (sort_by_sorted String.leb String.leb_total string_leb_trans
                (unique ((λ r, Name (cols r)) <$> df))) as Hs.
  assert (Hnd' : NoDup (sort_by String.leb (unique ((λ r, Name (cols r)) <$> df))))
    by (rewrite Hperm; exact Hnd).
  split; [|split; [exact Hnd'|]].
  - intros name. rewrite Hperm, Hin, list_elem_of_fmap. split.
    + intros (r & -> & Hr). eauto.
    + intros (r & Hr & <-). eauto.
  - intros i j a b Hij Hi Hj.
    pose proof (strongly_sorted_lookup _ _ _ _ _ _ Hs Hij Hi Hj) as Hle.
    assert (Hne : a ≠ b).
    { intros ->. assert (i = j) by (eapply NoDup_lookup; eassumption). lia. }
    unfold String.leb in Hle. unfold String.ltb.
    destruct (String.compare a b) eqn:E; [|reflexivity|discriminate].
    apply String.compare_eq_iff in E. contradiction.
Qed.

Lemma head_filter_spec {A} (p : A → bool) (l : list A) :
  match head (List.filter p l) with
  | Some x => ∃ i, l !! i = Some x ∧ p x = true ∧
                   ∀ j y, (j < i)%nat → l !! j = Some y → p y = false
  | None => ∀ y, y ∈ l → p y = false
  end.
Proof.
  induction l as [|x l IH]; cbn [List.filter].
  - cbn. intros y Hy. apply elem_of_nil in Hy. destruct Hy.
  - destruct (p x) eqn:Hp.
    + cbn [head]. exists 0%nat. split; [reflexivity|]. split; [exact Hp|]. intros; lia.
    + destruct (head (List.filter p l)) as [z|].
      * destruct IH as (i & Hi & Hz & Hbefore). exists (S i).
        split; [exact Hi|]. split; [exact Hz|].
        intros [|j] y Hj Hy; cbn in Hy; [congruence|]. apply (Hbefore j); [lia|exact Hy].
      * intros y Hy. apply elem_of_cons in Hy as [->|Hy]; [exact Hp|apply IH, Hy].
Qed.

(** ** The student search with empty Name cells *)

Lemma unique_cells_loop (l seen : list name_cell) :
  NoDup seen →
  NoDup (foldl (λ seen x, if decide (x ∈ seen) then seen else seen ++ [x]) seen l) ∧
  ∀ x, x ∈ foldl (λ seen x, if decide (x ∈ seen) then seen else seen ++ [x]) seen l
       ↔ x ∈ seen ∨ x ∈ l.
Proof.
  revert seen. induction l as [|y l IH]; intros seen Hnd; cbn [foldl].
  - split; [exact Hnd|]. intros x. rewrite elem_of_nil. tauto.
  - destruct (decide (y ∈ seen)) as [Hy|Hy].
    + destruct (IH seen Hnd) as [H1 H2]. split; [exact H1|].
      intros x. rewrite H2, elem_of_cons. split; [tauto|].
      intros [H|[->|H]]; auto.
    + assert (Hnd' : NoDup (seen ++ [y])).
      { apply NoDup_app. split; [exact Hnd|]. split; [|apply NoDup_singleton].
        intros x Hx Hxy. apply list_elem_of_singleton in Hxy. subst x. contradiction. }
      destruct (IH (seen ++ [y]) Hnd') as [H1 H2]. split; [exact H1|].
      intros x. rewrite H2, elem_of_app, list_elem_of_singleton, elem_of_cons. tauto.
Qed.

Lemma unique_cells_spec (l : list name_cell) :
  NoDup (unique_cells l) ∧ ∀ x, x ∈ unique_cells l ↔ x ∈ l.
Proof.
  destruct (unique_cells_loop l [] (NoDup_nil_2)) as [H1 H2]. split; [exact H1|].
  intros x. unfold unique_cells. rewrite H2, elem_of_nil. tauto.
Qed.

Lemma NameText_inj : Inj (=) (=) NameText.
Proof. intros s t H. congruence. Qed.

Lemma elem_of_NameText (s : string) (l : list string) :
  NameText s ∈ NameText <$> l ↔ s ∈ l.
Proof.
  rewrite list_elem_of_fmap. split.
  - intros (t & Heq & Ht). apply NameText_inj in Heq. congruence.
  - intros Hs. eauto.
Qed.

Lemma NameNaN_not_text (l : list string) : NameNaN ∉ NameText <$> l.
Proof. rewrite list_elem_of_fmap. intros (t & Heq & _). discriminate. Qed.

Lemma unique_cells_text_loop (l seen : list string) :
  foldl (λ seen x, if decide (x ∈ seen) then seen else seen ++ [x])
        (NameText <$> seen) (NameText <$> l)
  = NameText <$> foldl (λ seen x, if decide (x ∈ seen) then seen else seen ++ [x]) seen l.
Proof.
  revert seen. induction l as [|x l IH]; intros seen; cbn [fmap list_fmap foldl].
  - reflexivity.
  - destruct (decide (NameText x ∈ NameText <$> seen)) as [H|H];
      destruct (decide (x ∈ seen)) as [H'|H'].
    + apply IH.
    + destruct H'. apply elem_of_NameText, H.
    + destruct H. apply elem_of_NameText, H'.
    + rewrite <- IH, fmap_app. reflexivity.
Qed.

(** On a column of texts, [unique] and [sorted] are those of the names. *)
Lemma unique_cells_text (l : list string) :
  unique_cells (NameText <$> l) = NameText <$> unique l.
Proof. apply (unique_cells_text_loop l []). Qed.

Lemma string_ltb_leb (s t : string) : String.ltb s t = negb (String.leb t s).
Proof.
  unfold String.ltb, String.leb. rewrite (String.compare_antisym s t).
  destruct (String.compare t s); reflexivity.
Qed.

Lemma insert_cell_text (x : string) (l : list string) :
  insert_cell (NameText x) (NameText <$> l)
  = Some (NameText <$> insert_by String.leb x l).
Proof.
  induction l as [|y l IH]; [reflexivity|].
  cbn [fmap list_fmap insert_cell insert_by cell_lt mbind option_bind].
  rewrite string_ltb_leb. destruct (String.leb x y); cbn [negb].
  - reflexivity.
  - fold (NameText <$> l). rewrite IH. reflexivity.
Qed.

Lemma sorted_cells_text (l : list string) :
  sorted_cells (NameText <$> l) = Some (NameText <$> sort_by String.leb l).
Proof.
  induction l as [|x l IH]; [reflexivity|].
  unfold sorted_cells in *. cbn [fmap list_fmap foldr]. fold (NameText <$> l).
  rewrite IH. cbn [mbind option_bind]. apply insert_cell_text.
Qed.

Lemma sorted_cells_nan (l : list name_cell) :
  Forall (λ c, c = NameNaN) l → sorted_cells l = Some l.
Proof.
  induction 1 as [|x l Hx Hl IH]; [reflexivity|].
  unfold sorted_cells in *. cbn [foldr]. rewrite IH. cbn [mbind option_bind].
  subst x. destruct Hl as [|y l Hy Hl]; [reflexivity|]. subst y. reflexivity.
Qed.

(** A column holds texts only, or it holds empty cells only and at least
    one, or it holds both a text and an empty cell. *)
Lemma cells_cases (l : list name_cell) :
  (∃ names, l = NameText <$> names)
  ∨ (l ≠ [] ∧ Forall (λ c, c = NameNaN) l)
  ∨ (NameNaN ∈ l ∧ ∃ s, NameText s ∈ l).
Proof.
  induction l as [|x l IH]; [left; exists []; reflexivity|].
  destruct IH as [(names & ->)|[[Hne Hall]|[Hnan (s & Hs)]]].
  - destruct x as [s|].
    + left. exists (s :: names). reflexivity.
    + destruct names as [|n names].
      * right; left. split; [discriminate|]. repeat constructor.
      * right; right. split; [apply list_elem_of_here|].
        exists n. apply list_elem_of_further, list_elem_of_here.
  - destruct x as [s|].
    + right; right. split.
      * destruct Hall as [|y l Hy Hl]; [destruct Hne; reflexivity|]. subst y.
        apply list_elem_of_further, list_elem_of_here.
      * exists s. apply list_elem_of_here.
    + right; left. split; [discriminate|]. constructor; [reflexivity|exact Hall].
  - right; right. split; [apply list_elem_of_further, Hnan|].
    exists s. apply list_elem_of_further, Hs.
Qed.

(** [sorted] raises as soon as the list holds a text and a NaN. *)
Lemma sorted_cells_mixed (l : list name_cell) :
  NameNaN ∈ l → (∃ s, NameText s ∈ l) → sorted_cells l = None.
Proof.
  induction l as [|x l IH]; intros Hnan (s & Hs).
  - apply elem_of_nil in Hnan. destruct Hnan.
  - change (sorted_cells (x :: l)) with (sorted_cells l ≫= insert_cell x).
    destruct (cells_cases l) as [(names & ->)|[[Hne Hall]|[Hnan' Htext']]].
    + rewrite sorted_cells_text. cbn [mbind option_bind].
      apply elem_of_cons in Hnan as [<-|Hnan]; [|destruct (NameNaN_not_text _ Hnan)].
      apply elem_of_cons in Hs as [Hs|Hs]; [discriminate|].
      apply elem_of_NameText in Hs.
      destruct (sort_by String.leb names) as [|y k] eqn:E; [|reflexivity].
      apply (f_equal length) in E. rewrite sort_by_length in E.
      destruct names; [apply elem_of_nil in Hs; destruct Hs|discriminate].
    + rewrite (sorted_cells_nan l Hall). cbn [mbind option_bind].
      apply elem_of_cons in Hs as [<-|Hs].
      * destruct Hall as [|y l Hy Hl]; [destruct Hne; reflexivity|]. subst y. reflexivity.
      * rewrite Forall_forall in Hall. specialize (Hall _ Hs). discriminate.
    + rewrite (IH Hnan' Htext'). reflexivity.
Qed.

Lemma sorted_cells_perm (l l' : list name_cell) : sorted_cells l = Some l' → l' ≡ₚ l.
Proof.
  intros H. destruct (cells_cases l) as [(names & ->)|[[Hne Hall]|[Hnan Htext]]].
  - rewrite sorted_cells_text in H. injection H as <-.
    apply fmap_Permutation, sort_by_perm.
  - rewrite (sorted_cells_nan l Hall) in H. injection H as <-. reflexivity.
  - rewrite (sorted_cells_mixed l Hnan Htext) in H. discriminate.
Qed.

Section SidebarFacts.
Context {A : Type} (Name_cell : A → name_cell).

Lemma cell_in_column (df : list A) (c : name_cell) :
  c ∈ unique_cells (Name_cell <$> df) ↔ ∃ r, r ∈ df ∧ Name_cell r = c.
Proof.
  rewrite (proj2 (unique_cells_spec _)), list_elem_of_fmap. split.
  - intros (r & -> & Hr). eauto.
  - intros (r & Hr & <-). eauto.
Qed.

(** The options are computed unless the column holds both an empty cell
    and a text. *)
Lemma sidebar_options_None (df : list A) :
  sidebar_options Name_cell df = None
  ↔ (∃ r, r ∈ df ∧ Name_cell r = NameNaN) ∧ (∃ r s, r ∈ df ∧ Name_cell r = NameText s).
Proof.
  unfold sidebar_options. split.
  - intros H. destruct (cells_cases (unique_cells (Name_cell <$> df)))
      as [(names & E)|[[Hne Hall]|[Hnan (s & Hs)]]].
    + rewrite E, sorted_cells_text in H. discriminate.
    + rewrite (sorted_cells_nan _ Hall) in H. discriminate.
    + apply cell_in_column in Hnan. apply cell_in_column in Hs as (r & Hr & Hc).
      split; [exact Hnan|eauto].
  - intros [Hnan (r & s & Hr & Hc)]. apply sorted_cells_mixed.
    + apply cell_in_column, Hnan.
    + exists s. apply cell_in_column. eauto.
Qed.

Lemma sidebar_options_Some (df : list A) (options : list name_cell) :
  sidebar_options Name_cell df = Some options →
  NoDup options ∧
  (∀ c, c ∈ options ↔ ∃ r, r ∈ df ∧ Name_cell r = c) ∧
  (∀ i j a b, (i < j)%nat →
     options !! i = Some (NameText a) → options !! j = Some (NameText b) →
     String.ltb a b = true).
Proof.
  unfold sidebar_options. intros H.
  pose proof (sorted_cells_perm _ _ H) as Hperm.
  destruct (unique_cells_spec (Name_cell <$> df)) as [Hnd _].
  split; [rewrite Hperm; exact Hnd|]. split.
  - intros c. rewrite Hperm. apply cell_in_column.
  - intros i j a b Hij Hi Hj.
    destruct (cells_cases (unique_cells (Name_cell <$> df)))
      as [(names & E)|[[Hne Hall]|[Hnan Htext]]].
    + rewrite E in H, Hnd. rewrite sorted_cells_text in H. injection H as <-.
      apply (NoDup_fmap_1 NameText) in Hnd.
      rewrite list_lookup_fmap in Hi, Hj.
      destruct (sort_by String.leb names !! i) as [a'|] eqn:Ei; [|discriminate].
      destruct (sort_by String.leb names !! j) as [b'|] eqn:Ej; [|discriminate].
      cbn in Hi, Hj. injection Hi as ->. injection Hj as ->.
      pose proof (sort_by_sorted String.leb String.leb_total string_leb_trans names) as Hs.
      pose proof (strongly_sorted_lookup _ _ _ _ _ _ Hs Hij Ei Ej) as Hle.
      assert (Hne : a ≠ b).
      { intros ->. assert (Hnd' : NoDup (sort_by String.leb names))
          by (rewrite sort_by_perm; exact Hnd).
        assert (i = j) by (eapply NoDup_lookup; eassumption). lia. }
      unfold String.leb in Hle. unfold String.ltb.
      destruct (String.compare a b) eqn:E'; [|reflexivity|discriminate].
      apply String.compare_eq_iff in E'. contradiction.
    + rewrite (sorted_cells_nan _ Hall) in H. injection H as <-.
      rewrite Forall_forall in Hall.
      specialize (Hall _ (list_elem_of_lookup_2 _ _ _ Hi)). discriminate.
    + rewrite (sorted_cells_mixed _ Hnan Htext) in H. discriminate.
Qed.

Lemma cell_eqb_true (c : name_cell) (student_name : option name_cell) :
  cell_eqb c student_name = true ↔ ∃ s, c = NameText s ∧ student_name = Some (NameText s).
Proof.
  destruct c as [s|], student_name as [[t|]|]; cbn [cell_eqb];
    try (split; [discriminate|intros (u & Hc & Hn); congruence]).
  rewrite bool_decide_eq_true. split.
  - intros ->. eauto.
  - intros (u & Hc & Hn). congruence.
Qed.

Lemma sidebar_student_None (df : list A) (student_name : option name_cell) :
  sidebar_student Name_cell df student_name = None
  ↔ ∀ r, r ∈ df → cell_eqb (Name_cell r) student_name = false.
Proof.
  unfold sidebar_student.
  pose proof (head_filter_spec (λ r, cell_eqb (Name_cell r) student_name) df) as H.
  destruct (head _) as [x|].
  - destruct H as (i & Hi & Hx & _). split; [discriminate|]. intros Hall.
    rewrite (Hall x) in Hx; [discriminate|]. eapply list_elem_of_lookup_2, Hi.
  - split; [|reflexivity]. intros _. exact H.
Qed.

(** A name that is no text finds no row. *)
Lemma sidebar_student_no_text (df : list A) (student_name : option name_cell) :
  (∀ s, student_name ≠ Some (NameText s)) →
  sidebar_student Name_cell df student_name = None.
Proof.
  intros Hno. apply sidebar_student_None. intros r _.
  destruct (cell_eqb (Name_cell r) student_name) eqn:E; [|reflexivity].
  apply cell_eqb_true in E as (s & _ & Hs). destruct (Hno s Hs).
Qed.

(** A text held by a row finds a row. *)
Lemma sidebar_student_text (df : list A) (r : A) (s : string) :
  r ∈ df → Name_cell r = NameText s →
  ∃ r', sidebar_student Name_cell df (Some (NameText s)) = Some r' ∧ r' ∈ df.
Proof.
  intros Hr Hc. unfold sidebar_student.
  pose proof (head_filter_spec (λ r, cell_eqb (Name_cell r) (Some (NameText s))) df) as H.
  destruct (head _) as [x|].
  - destruct H as (i & Hi & _). exists x. split; [reflexivity|].
    eapply list_elem_of_lookup_2, Hi.
  - specialize (H r Hr). cbn beta in H.
    assert (Ht : cell_eqb (Name_cell r) (Some (NameText s)) = true)
      by (apply cell_eqb_true; eauto).
    congruence.
Qed.
End SidebarFacts.

(** X14: the student shown for a selected text is the first row of the frame
    whose Name cell holds that text, so a row that shares its name with an
    earlier row is never the one shown; the selection fails (an IndexError)
    exactly when no row has the name.  An empty Name cell matches nothing:
    the selection fails for the name NaN, which the select box offers when
    the Name column holds empty cells only, and for the None that the select
    box returns when it has no option; of the values that the select box
    can return, the texts are the ones that find a student. *)
Theorem sidebar_student_first {A : Type} (Name_cell : A → name_cell) (df : list A) :
  (∀ s,
     (sidebar_student Name_cell df (Some (NameText s)) = None
      ↔ ∀ r, r ∈ df → Name_cell r ≠ NameText s) ∧
     (∀ r, sidebar_student Name_cell df (Some (NameText s)) = Some r →
        ∃ i, df !! i = Some r ∧ Name_cell r = NameText s ∧
             ∀ j r', (j < i)%nat → df !! j = Some r' → Name_cell r' ≠ NameText s)) ∧
  sidebar_student Name_cell df (Some NameNaN) = None ∧
  sidebar_student Name_cell df None = None ∧
  (∀ options student_name,
     sidebar_options Name_cell df = Some options →
     selectbox_returns options student_name →
     (is_Some (sidebar_student Name_cell df student_name)
      ↔ ∃ s, student_name = Some (NameText s))).
Proof.
  assert (Heq : ∀ c s, cell_eqb c (Some (NameText s)) = false ↔ c ≠ NameText s).
  { intros c s. rewrite <- not_true_iff_false, cell_eqb_true. split.
    - intros Hn ->. apply Hn. eauto.
    - intros Hn (u & Hc & Hu). injection Hu as ->. contradiction. }
  split; [|split; [|split]].
  - intros s. split.
    + rewrite sidebar_student_None. split.
      * intros Hall r Hr. apply Heq, Hall, Hr.
      * intros Hall r Hr. apply Heq, Hall, Hr.
    + intros r Hr. unfold sidebar_student in Hr.
      pose proof (head_filter_spec (λ r, cell_eqb (Name_cell r) (Some (NameText s))) df) as H.
      rewrite Hr in H. destruct H as (i & Hi & Hx & Hbefore).
      exists i. split; [exact Hi|]. split.
      * apply cell_eqb_true in Hx as (u & Hc & Hu). congruence.
      * intros j r' Hj Hr'. apply Heq, (Hbefore j r' Hj Hr').
  - apply sidebar_student_no_text. discriminate.
  - apply sidebar_student_no_text. discriminate.
  - intros options student_name Hopt Hret. split.
    + intros [r Hr]. destruct student_name as [[s|]|]; [eauto| |].
      * rewrite sidebar_student_no_text in Hr; discriminate.
      * rewrite sidebar_student_no_text in Hr; discriminate.
    + intros (s & ->). cbn [selectbox_returns] in Hret.
      apply (proj1 (proj2 (sidebar_options_Some _ _ _ Hopt))) in Hret as (r & Hr & Hc).
      destruct (sidebar_student_text Name_cell df r s Hr Hc) as (r' & Hr' & _). eauto.
Qed.

(** X19: the options of the select box.  Computing them raises (a TypeError
    in [sorted]) exactly when the Name column holds both an empty cell and
    a text; otherwise the options are the values of the column, each one
    once, the texts in strictly ascending order.  The sidebar as a whole
    finds a student for whatever the select box returns exactly when the
    frame has a row and no Name cell is empty. *)
Theorem sidebar_options_spec {A : Type} (Name_cell : A → name_cell) (df : list A) :
  (sidebar_options Name_cell df = None
   ↔ (∃ r, r ∈ df ∧ Name_cell r = NameNaN)
     ∧ (∃ r s, r ∈ df ∧ Name_cell r = NameText s)) ∧
  (∀ options, sidebar_options Name_cell df = Some options →
     NoDup options ∧
     (∀ c, c ∈ options ↔ ∃ r, r ∈ df ∧ Name_cell r = c) ∧
     (∀ i j a b, (i < j)%nat →
        options !! i = Some (NameText a) → options !! j = Some (NameText b) →
        String.ltb a b = true)) ∧
  ((∃ options, sidebar_options Name_cell df = Some options ∧
      ∀ student_name, selectbox_returns options student_name →
        is_Some (sidebar_student Name_cell df student_name))
   ↔ df ≠ [] ∧ ∀ r, r ∈ df → Name_cell r ≠ NameNaN).
Proof.
  split; [apply sidebar_options_None|]. split; [apply sidebar_options_Some|].
  split.
  - intros (options & Hopt & Hall).
    destruct (sidebar_options_Some _ _ _ Hopt) as (_ & Hin & _). split.
    + intros ->. assert (Hnil : options = []).
      { destruct options as [|c k]; [reflexivity|].
        destruct (proj1 (Hin c) (list_elem_of_here _ _)) as (r & Hr & _).
        apply elem_of_nil in Hr. destruct Hr. }
      destruct (Hall None Hnil) as [r Hr]. discriminate.
    + intros r Hr Hc.
      assert (Hnan : selectbox_returns options (Some NameNaN)).
      { cbn [selectbox_returns]. apply Hin. eauto. }
      destruct (Hall _ Hnan) as [r' Hr'].
      rewrite sidebar_student_no_text in Hr'; discriminate.
  - intros [Hne Htext].
    destruct (sidebar_options Name_cell df) as [options|] eqn:Hopt.
    + exists options. split; [reflexivity|].
      destruct (sidebar_options_Some _ _ _ Hopt) as (_ & Hin & _).
      intros [c|] Hret; cbn [selectbox_returns] in Hret.
      * apply Hin in Hret as (r & Hr & Hc). destruct c as [s|].
        -- destruct (sidebar_student_text Name_cell df r s Hr Hc) as (r' & Hr' & _). eauto.
        -- destruct (Htext r Hr Hc).
      * destruct df as [|r df]; [destruct Hne; reflexivity|].
        assert (Hc : Name_cell r ∈ options) by (apply Hin; exists r; split;
          [apply list_elem_of_here|reflexivity]).
        rewrite Hret in Hc. apply elem_of_nil in Hc. destruct Hc.
    + apply sidebar_options_None in Hopt as [(r & Hr & Hc) _]. destruct (Htext r Hr Hc).
Qed.

(** A sheet with the one name Asha and an empty Name cell: the options
    cannot be sorted.  A sheet with empty Name cells only: the one option is
    NaN, and it finds no row. *)
Example empty_name_cell_raises :
  sidebar_options id [NameText "Asha"; NameNaN] = None ∧
  sidebar_options id [NameNaN; NameNaN] = Some [NameNaN] ∧
  sidebar_student id [NameNaN; NameNaN] (Some NameNaN) = None ∧
  sidebar_options id (@nil name_cell) = Some [] ∧
  sidebar_student id (@nil name_cell) None = None.
Proof. repeat split; vm_compute; reflexivity. Qed.

(** ** The grade columns and the subject-wise table *)

(** X17: the grade loop gives a row exactly 22 new columns: a Grade and a GP
    column for each of the eleven subject codes and for no other key, and
    the two columns of a subject hold the pair that [grade_and_point]
    returns for the mark of that subject. *)
Theorem grade_columns_exact (marks : Z → Qc) :
  dom (apply_grades marks).1 = list_to_set subject_cols ∧
  dom (apply_grades marks).2 = list_to_set subject_cols ∧
  size (apply_grades marks).1 = 11%nat ∧ size (apply_grades marks).2 = 11%nat ∧
  (∀ sub, sub ∈ subject_cols →
     ∃ g p, (apply_grades marks).1 !! sub = Some g ∧
            (apply_grades marks).2 !! sub = Some p ∧
            (g, p) = grade_and_point (marks sub)).
Proof.
  assert (H1 : dom (apply_grades marks).1 = list_to_set subject_cols).
  { apply set_eq. intros sub.
    rewrite elem_of_dom, apply_grades_Grade, elem_of_list_to_set.
    destruct (decide (sub ∈ subject_cols)) as [Hin|Hnin].
    - split; [auto|eauto].
    - split; [intros [? H]; discriminate|contradiction]. }
  assert (H2 : dom (apply_grades marks).2 = list_to_set subject_cols).
  { apply set_eq. intros sub.
    rewrite elem_of_dom, apply_grades_GP, elem_of_list_to_set.
    destruct (decide (sub ∈ subject_cols)) as [Hin|Hnin].
    - split; [auto|eauto].
    - split; [intros [? H]; discriminate|contradiction]. }
  assert (Hsize : size (list_to_set subject_cols : gset Z) = 11%nat).
  { rewrite size_list_to_set; [reflexivity|].
    apply (bool_decide_unpack (NoDup subject_cols)). vm_compute. exact I. }
  split; [exact H1|]. split; [exact H2|].
  split; [rewrite <- size_dom, H1; exact Hsize|].
  split; [rewrite <- size_dom, H2; exact Hsize|].
  intros sub Hsub. exists (grade_of (marks sub)), (point_of (marks sub)).
  rewrite apply_grades_Grade, apply_grades_GP, !decide_True by exact Hsub.
  split; [reflexivity|]. split; [reflexivity|].
  unfold grade_of, point_of. destruct (grade_and_point (marks sub)). reflexivity.
Qed.

(** The line of the subject-wise table for a subject. *)
Definition table_row_of (r : row) (sub : Z) : table_row :=
  {| Subject_Code := sub; Subject_Name := subject_name sub;
     Marks := marks (cols r) sub;
     Grade_shown := grade_of (marks (cols r) sub);
     Grade_Point := point_of (marks (cols r) sub);
     Credits := credit sub |}.

Lemma subject_table_graded (r : row) :
  graded r → subject_table r = Some (table_row_of r <$> subject_cols).
Proof.
  intros Hg. unfold subject_table.
  apply mapM_Some, Forall2_fmap_r, Forall_Forall2_diag, Forall_forall.
  intros sub Hsub. destruct (Hg sub Hsub) as [HG HP].
  rewrite (SUBJECT_NAMES_subject sub Hsub), HG, HP, (CREDITS_subject sub Hsub).
  reflexivity.
Qed.

(** X15: the subject-wise table of a row of the processed frame is built
    without a KeyError and has one line for each of the eleven subjects, in
    the order of [subject_cols]; a line shows the mark of the row, the grade
    and grade point that [grade_and_point] gives for it, and the name and
    credit of the subject; and the SGPA of the row is the credit-weighted
    mean of the Grade Point column of the table, rounded to two decimals. *)
Theorem subject_table_consistent parse (df : list student) :
  ∃ rows, process parse df = Some rows ∧ ∀ r, r ∈ rows →
  ∃ table, subject_table r = Some table ∧
    Subject_Code <$> table = subject_cols ∧
    (∀ t, t ∈ table →
       Marks t = marks (cols r) (Subject_Code t) ∧
       (Grade_shown t, Grade_Point t) = grade_and_point (Marks t) ∧
       SUBJECT_NAMES !! Subject_Code t = Some (Subject_Name t) ∧
       CREDITS !! Subject_Code t = Some (Credits t)) ∧
    Zsum (Credits <$> table) = 24 ∧
    SGPA (cols r)
    = round (Q2Qc (inject_Z (Zsum ((λ t, Credits t * Grade_Point t) <$> table))
                   / inject_Z (Zsum (Credits <$> table)))) 2.
Proof.
  pose proof (process_eq parse df) as Hp.
  exists (row_of parse df <$> df). split; [exact Hp|].
  intros r Hr. apply list_elem_of_fmap in Hr as (s & -> & _).
  exists (table_row_of (row_of parse df s) <$> subject_cols).
  split; [apply subject_table_graded, row_of_graded|].
  rewrite <- !list_fmap_compose.
  split; [apply list_fmap_id|]. split; [|split].
  - intros t Ht. apply list_elem_of_fmap in Ht as (sub & -> & Hsub).
    cbn [table_row_of Marks Subject_Code Grade_shown Grade_Point Subject_Name Credits].
    split; [reflexivity|]. split.
    + unfold grade_of, point_of.
      destruct (grade_and_point (marks (cols (row_of parse df s)) sub)). reflexivity.
    + split; [apply SUBJECT_NAMES_subject, Hsub|apply CREDITS_subject, Hsub].
  - exact total_credit_sum_24.
  - rewrite row_of_SGPA.
    change (Zsum ((Credits ∘ table_row_of (row_of parse df s)) <$> subject_cols))
      with total_credit_sum.
    rewrite total_credit_sum_24. reflexivity.
Qed.

(** ** The subject-wise topper list *)

Section KeyOrder.
Variable key : row → Qc.

(** A key descending, then the name ascending. *)
Definition key_le (a b : row) : bool :=
  bool_decide (key b < key a)%Qc
  || (bool_decide (key a = key b) && String.leb (Name (cols a)) (Name (cols b))).

Lemma key_le_inv (a b : row) :
  key_le a b = true ↔
  (key b < key a)%Qc
  ∨ (key a = key b ∧ String.leb (Name (cols a)) (Name (cols b)) = true).
Proof.
  unfold key_le.
  rewrite orb_true_iff, andb_true_iff, !bool_decide_eq_true. reflexivity.
Qed.

Lemma key_le_total (a b : row) : key_le a b = true ∨ key_le b a = true.
Proof.
  rewrite !key_le_inv.
  destruct (Qclt_le_dec (key b) (key a)) as [H|H]; [auto|].
  destruct (Qcle_lt_or_eq _ _ H) as [H'|H']; [auto|].
  destruct (String.leb_total (Name (cols a)) (Name (cols b))) as [Hn|Hn]; auto.
Qed.

Lemma key_le_trans (a b c : row) :
  key_le a b = true → key_le b c = true → key_le a c = true.
Proof.
  rewrite !key_le_inv. intros [H1|[H1 N1]] [H2|[H2 N2]].
  - left. exact (Qclt_trans _ _ _ H2 H1).
  - left. rewrite <- H2. exact H1.
  - left. rewrite H1. exact H2.
  - right. split; [congruence|]. exact (string_leb_trans _ _ _ N1 N2).
Qed.

End KeyOrder.

Lemma subject_le_key (sel : Z) : subject_le sel = key_le (λ r, marks (cols r) sel).
Proof. reflexivity. Qed.

(** The displayed line of a ranked row. *)
Definition line_of (sel : Z) (p : Z * row) : topper_line :=
  {| Subject_Rank := p.1; line_RollNo := RollNo (cols p.2);
     line_Name := Name (cols p.2); line_Marks := marks (cols p.2) sel;
     line_Grade := grade_of (marks (cols p.2) sel) |}.

Lemma subject_topper_view_graded (sel : Z) (df : list row) :
  Forall graded df → sel ∈ subject_cols →
  subject_topper_view sel df = Some (line_of sel <$> subject_topper_df sel df).
Proof.
  intros Hg Hsel. unfold subject_topper_view.
  apply mapM_Some, Forall2_fmap_r, Forall_Forall2_diag, Forall_forall.
  intros [rank r] Hin.
  assert (Hr : r ∈ df).
  { apply (list_elem_of_fmap_2 snd) in Hin. unfold subject_topper_df in Hin.
    rewrite fmap_imap, (imap_ext _ (const id)), imap_const, list_fmap_id in Hin
      by reflexivity.
    apply sort_by_elem_of in Hin. exact Hin. }
  rewrite Forall_forall in Hg. destruct (Hg r Hr sel Hsel) as [HG _].
  rewrite HG. reflexivity.
Qed.

(** X16: for each of the eleven subjects the subject-wise topper list of a
    processed frame is displayed without a KeyError; its Subject Rank column
    is 1, 2, ..., N; its lines are the rows of the frame in another order;
    every line shows the grade of its mark; and down the list the marks
    never go up, hence neither do the grade points, lines with equal marks
    standing in ascending order of name. *)
Theorem subject_topper_sorted parse (df : list student) :
  ∃ rows, process parse df = Some rows ∧ ∀ sel, sel ∈ subject_cols →
  ∃ lines, subject_topper_view sel rows = Some lines ∧
    Subject_Rank <$> lines = seqZ 1 (Z.of_nat (length rows)) ∧
    (λ l, (line_RollNo l, line_Name l, line_Marks l)) <$> lines
      ≡ₚ (λ r, (RollNo (cols r), Name (cols r), marks (cols r) sel)) <$> rows ∧
    (∀ l, l ∈ lines → line_Grade l = (grade_and_point (line_Marks l)).1) ∧
    (∀ i j a b, (i < j)%nat → lines !! i = Some a → lines !! j = Some b →
       (line_Marks b ≤ line_Marks a)%Qc ∧
       (grade_and_point (line_Marks b)).2 ≤ (grade_and_point (line_Marks a)).2 ∧
       (line_Marks a = line_Marks b → String.leb (line_Name a) (line_Name b) = true)).
Proof.
  pose proof (process_eq parse df) as Hp.
  exists (row_of parse df <$> df). split; [exact Hp|].
  generalize dependent (row_of parse df <$> df). intros rows Hp sel Hsel.
  exists (line_of sel <$> subject_topper_df sel rows).
  split; [apply subject_topper_view_graded; [apply (processed_graded _ _ _ Hp)|exact Hsel]|].
  set (S := sort_by (subject_le sel) rows).
  assert (Hperm : S ≡ₚ rows) by apply sort_by_perm.
  assert (Hs : StronglySorted (λ a b, subject_le sel a b = true) S).
  { subst S. rewrite subject_le_key.
    apply sort_by_sorted; [apply key_le_total|apply key_le_trans]. }
  assert (Hlines : ∀ i a, (line_of sel <$> subject_topper_df sel rows) !! i = Some a →
            ∃ r, S !! i = Some r ∧ a = line_of sel (Z.of_nat i + 1, r)).
  { intros i a Hi. rewrite list_lookup_fmap in Hi. unfold subject_topper_df in Hi.
    rewrite list_lookup_imap in Hi. fold S in Hi.
    destruct (S !! i) as [r|]; [|discriminate]. injection Hi as <-. eauto. }
  split; [|split; [|split]].
  - rewrite <- list_fmap_compose. unfold subject_topper_df. rewrite fmap_imap.
    rewrite (imap_ext _ (λ i _, Z.of_nat i + 1)) by reflexivity.
    rewrite imap_seq_0, sort_by_length. unfold seqZ. rewrite Nat2Z.id. reflexivity.
  - rewrite <- list_fmap_compose. unfold subject_topper_df. rewrite fmap_imap.
    rewrite (imap_ext _ (const (λ r, (RollNo (cols r), Name (cols r), marks (cols r) sel))))
      by reflexivity.
    rewrite imap_const. apply fmap_Permutation. exact Hperm.
  - intros l Hl. apply list_elem_of_fmap in Hl as (p & -> & _). reflexivity.
  - intros i j a b Hij Hi Hj.
    destruct (Hlines i a Hi) as (ra & Hra & ->).
    destruct (Hlines j b Hj) as (rb & Hrb & ->).
    cbn [line_of line_Marks line_Name fst snd].
    pose proof (strongly_sorted_lookup _ _ _ _ _ _ Hs Hij Hra Hrb) as Hle.
    rewrite subject_le_key in Hle. apply key_le_inv in Hle.
    assert (Hm : (marks (cols rb) sel ≤ marks (cols ra) sel)%Qc).
    { destruct Hle as [H|[H _]]; [apply Qclt_le_weak, H|rewrite H; apply Qcle_refl]. }
    split; [exact Hm|]. split; [apply (point_of_mono _ _ Hm)|].
    intros Heq. destruct Hle as [H|[_ H]]; [|exact H].
    rewrite Heq in H. destruct (Qclt_not_eq _ _ H eq_refl).
Qed.

Lemma subject_topper_sorted_witness :
  ∃ rows lines,
    process no_text_number sample_df = Some rows ∧
    subject_topper_view 101 rows = Some lines ∧
    Subject_Rank <$> lines = seqZ 1 (Z.of_nat (length rows)).
Proof.
  destruct (subject_topper_sorted no_text_number sample_df) as (rows & Hp & H).
  destruct (H 101 (list_elem_of_here _ _)) as (lines & Hv & Hr & _).
  exists rows, lines. auto.
Defined.

(** ** The whole page *)

(** On a processed frame the options are the names of [name_options]. *)
Lemma sidebar_options_text (df : list row) :
  sidebar_options text_name df = Some (NameText <$> name_options df).
Proof.
  unfold sidebar_options, name_options.
  assert (E : text_name <$> df = NameText <$> ((λ r, Name (cols r)) <$> df)).
  { rewrite <- list_fmap_compose. reflexivity. }
  rewrite E, unique_cells_text. apply sorted_cells_text.
Qed.

(** X18: no step of the script raises on a sheet with at least one row and
    a text in every Name cell: the frame is processed, with a row for every
    row of the sheet, the table of fail counts is built, the options of the
    select box are the names of the frame and there is at least one, and
    for every value that the select box can return and every subject
    offered by the subject box, the student is found among the rows of the
    frame, the subject-wise table of the student is built and the
    subject-wise topper list is displayed.  (The rows described by
    [student] have a text as their name; what an empty Name cell does to
    the sidebar is stated above, on frames with such cells.) *)
Theorem views_never_fail parse (df : list student) :
  df ≠ [] →
  ∃ rows counts options,
    process parse df = Some rows ∧ length rows = length df ∧
    fail_counts rows = Some counts ∧
    sidebar_options text_name rows = Some options ∧
    options = NameText <$> name_options rows ∧ options ≠ [] ∧
    ∀ student_name selected_subject,
      selectbox_returns options student_name → selected_subject ∈ subject_cols →
      ∃ student_df table lines,
        sidebar_student text_name rows student_name = Some student_df ∧
        student_df ∈ rows ∧
        subject_table student_df = Some table ∧
        subject_topper_view selected_subject rows = Some lines ∧
        length table = 11%nat ∧ length lines = length rows.
Proof.
  intros Hne. pose proof (process_eq parse df) as Hp.
  assert (Hlen : length (row_of parse df <$> df) = length df) by apply length_fmap.
  exists (row_of parse df <$> df).
  generalize dependent (row_of parse df <$> df). intros rows Hp Hlen.
  pose proof (processed_graded _ _ _ Hp) as Hg.
  pose proof (sidebar_options_text rows) as Hopt.
  destruct (sidebar_options_Some _ _ _ Hopt) as (_ & Hin & _).
  assert (Hsome : NameText <$> name_options rows ≠ []).
  { destruct rows as [|r rows].
    - destruct df; [destruct Hne; reflexivity|discriminate].
    - intros Hnil.
      assert (Hc : text_name r ∈ NameText <$> name_options (r :: rows)).
      { apply Hin. exists r. split; [apply list_elem_of_here|reflexivity]. }
      rewrite Hnil in Hc. apply elem_of_nil in Hc. destruct Hc. }
  eexists. exists (NameText <$> name_options rows).
  split; [exact Hp|]. split; [exact Hlen|].
  split; [exact (fail_counts_eq rows Hg)|].
  split; [exact Hopt|]. split; [reflexivity|]. split; [exact Hsome|].
  intros [c|] sel Hret Hsel; cbn [selectbox_returns] in Hret; [|contradiction].
  apply Hin in Hret as (r0 & Hr0 & Hc). subst c.
  destruct (sidebar_student_text text_name rows r0 _ Hr0 eq_refl) as (r & Hsel_r & Hr).
  exists r, (table_row_of r <$> subject_cols), (line_of sel <$> subject_topper_df sel rows).
  split; [exact Hsel_r|]. split; [exact Hr|].
  split; [apply subject_table_graded; rewrite Forall_forall in Hg; apply Hg, Hr|].
  split; [apply subject_topper_view_graded; assumption|].
  split; [reflexivity|].
  unfold subject_topper_df. rewrite length_fmap, length_imap. apply sort_by_length.
Qed.

(** In the sample frame the options are Asha, Ravi and Zoya, and the Ravi
    shown is the first row of the sheet, Roll No 2, not Roll No 3. *)
Lemma views_never_fail_witness :
  sample_df ≠ [] ∧
  ∃ rows options student_df,
    process no_text_number sample_df = Some rows ∧
    sidebar_options text_name rows = Some options ∧
    options = [NameText "Asha"; NameText "Ravi"; NameText "Zoya"] ∧
    sidebar_student text_name rows (Some (NameText "Ravi")) = Some student_df ∧
    student_df ∈ rows ∧ RollNo (cols student_df) = 2.
Proof.
  assert (Hne : sample_df ≠ []) by discriminate.
  split; [exact Hne|].
  destruct (views_never_fail no_text_number sample_df Hne)
    as (rows & counts & options & Hp & _ & _ & Hopt & Heq & _ & H).
  assert (Hrows : rows = row_of no_text_number sample_df <$> sample_df).
  { rewrite process_eq in Hp. injection Hp as <-. reflexivity. }
  assert (Hval : options = [NameText "Asha"; NameText "Ravi"; NameText "Zoya"]).
  { rewrite Heq, Hrows. vm_compute. reflexivity. }
  assert (Hret : selectbox_returns options (Some (NameText "Ravi"))).
  { rewrite Hval. cbn [selectbox_returns]. apply list_elem_of_In. right; left; reflexivity. }
  destruct (H _ 101 Hret (list_elem_of_here _ _)) as (student_df & _ & _ & Hs & Hin & _).
  exists rows, options, student_df.
  split; [exact Hp|]. split; [exact Hopt|]. split; [exact Hval|].
  split; [exact Hs|]. split; [exact Hin|].
  rewrite Hrows in Hs. vm_compute in Hs. injection Hs as <-. reflexivity.
Defined.

(** ** Instances *)

Lemma calculate_sgpa_columns_witness :
  (∀ sub v, sub ∈ subject_cols → threes !! sub = Some v → 0 ≤ v ≤ 10) ∧
  calculate_sgpa threes = Some (Q2Qc (3 # 1)) ∧
  calculate_sgpa (delete 999 threes) = calculate_sgpa threes.
Proof.
  assert (Hcol : ∀ sub, sub ∈ subject_cols → threes !! sub = Some 3).
  { apply subject_cols_forall. repeat split; reflexivity. }
  assert (Hrange : ∀ sub v, sub ∈ subject_cols → threes !! sub = Some v → 0 ≤ v ≤ 10).
  { intros sub v Hsub Hv. rewrite (Hcol sub Hsub) in Hv. injection Hv as <-. lia. }
  destruct (calculate_sgpa_columns threes Hrange) as (_ & Hval & Hother).
  split; [exact Hrange|]. split.
  - rewrite (proj2 (Hval (λ _, 3) Hcol)). f_equal.
    apply Qc_is_canon. vm_compute. reflexivity.
  - apply Hother. intros sub Hsub. apply lookup_delete_ne.
    intros <-. revert Hsub. apply (bool_decide_unpack (999 ∉ subject_cols)).
    vm_compute. exact I.
Defined.

Lemma result_of_columns_witness :
  result_of (apply_grades (λ _, Qc_of_Z 50)).2 = Some "PASS"%string
  ↔ ∀ sub, sub ∈ subject_cols → 4 ≤ 6.
Proof.
  apply (proj2 (proj2 (result_of_columns (apply_grades (λ _, Qc_of_Z 50)).2)
                  (λ _, 6)
                  (λ sub Hsub,
                     eq_trans (apply_grades_GP (λ _, Qc_of_Z 50) sub)
                              (decide_True _ _ Hsub)))).
Defined.
